(** * A GraphQL-over-HTTP client: shallow embedding of [graphql.go]

    The client builds a JSON envelope, posts it through an injected HTTP
    transport, tees the outbound bytes into a buffer, and folds transport,
    status, decoding and server-reported failures into one error value.

    Go strings are byte strings and are modelled by [string] (a list of
    8-bit [ascii]); a Go [error] is modelled by its message. *)

From Stdlib Require Import Ascii String ZArith.
From stdpp Require Import base option list gmap strings sorting pretty.

Local Open Scope Z_scope.
Local Open Scope stdpp_scope.

(** ** Bytes and strings *)

Module Bytes.

Definition dquote : ascii := ascii_of_nat 34.
Definition newline : ascii := ascii_of_nat 10.

Definition between (lo hi c : ascii) : bool :=
  (nat_of_ascii lo <=? nat_of_ascii c)%nat && (nat_of_ascii c <=? nat_of_ascii hi)%nat.

Definition isLower (c : ascii) : bool := between "a" "z" c.
Definition isUpper (c : ascii) : bool := between "A" "Z" c.
Definition isDigit (c : ascii) : bool := between "0" "9" c.

(** [c - ('a' - 'A')] and [c + ('a' - 'A')] on bytes. *)
Definition toUpper (c : ascii) : ascii := ascii_of_nat (nat_of_ascii c - 32).
Definition toLower (c : ascii) : ascii := ascii_of_nat (nat_of_ascii c + 32).

Fixpoint contains (c : ascii) (set : string) : bool :=
  match set with
  | EmptyString => false
  | String a set' => Ascii.eqb a c || contains c set'
  end.

Fixpoint all (p : ascii → bool) (s : string) : bool :=
  match s with
  | EmptyString => true
  | String a s' => p a && all p s'
  end.

(** Go's [s[:n]]. *)
Fixpoint take (n : nat) (s : string) : string :=
  match n, s with
  | S n', String a s' => String a (take n' s')
  | _, _ => EmptyString
  end.

(** [strings.HasSuffix]. *)
Fixpoint HasSuffix (s suffix : string) : bool :=
  String.eqb s suffix ||
  match s with
  | EmptyString => false
  | String _ s' => HasSuffix s' suffix
  end.

(** [strings.Repeat] of a single byte. *)
Fixpoint repeat (c : ascii) (n : nat) : string :=
  match n with
  | O => EmptyString
  | S n' => String c (repeat c n')
  end.

End Bytes.

(** [strings.TrimRight(s, cutset)] for a cutset of ASCII bytes: the longest
    prefix of [s] whose last byte is not in [cutset]. *)
Fixpoint TrimRight (s cutset : string) : string :=
  match s with
  | EmptyString => EmptyString
  | String a s' =>
      match TrimRight s' cutset with
      | EmptyString => if Bytes.contains a cutset then EmptyString else String a EmptyString
      | t => String a t
      end
  end.

(** ** HTTP headers *)

(** [textproto.validHeaderFieldByte]: the token bytes of RFC 7230. *)
Definition validHeaderFieldByte (c : ascii) : bool :=
  Bytes.isLower c || Bytes.isUpper c || Bytes.isDigit c
  || Bytes.contains c "!#$%&'*+-.^_`|~".

(** The rewriting loop of [textproto.canonicalMIMEHeaderKey]: upper case for
    the first letter and after each dash, lower case elsewhere. *)
Fixpoint canonicalize (upper : bool) (s : string) : string :=
  match s with
  | EmptyString => EmptyString
  | String c s' =>
      let c' := if upper && Bytes.isLower c then Bytes.toUpper c
                else if negb upper && Bytes.isUpper c then Bytes.toLower c
                else c in
      String c' (canonicalize (Ascii.eqb c' "-") s')
  end.

(** [textproto.CanonicalMIMEHeaderKey]: a key holding a byte that is not a
    token byte is returned unchanged. *)
Definition CanonicalMIMEHeaderKey (s : string) : string :=
  if Bytes.all validHeaderFieldByte s then canonicalize true s else s.

(** [http.Header] is [map[string][]string]. *)
Definition Header_Set (key value : string) (h : gmap string (list string))
  : gmap string (list string) :=
  <[CanonicalMIMEHeaderKey key := [value]]> h.

(** [http.Header.Get]: first value under the canonical key, [""] if absent. *)
Definition Header_Get (h : gmap string (list string)) (key : string) : string :=
  match h !! CanonicalMIMEHeaderKey key with
  | Some (v :: _) => v
  | _ => ""
  end.

(** ** Results of fallible library calls *)

Inductive Res (A : Type) : Type :=
| Ok (a : A)
| Err (msg : string).
Arguments Ok {A} a.
Arguments Err {A} msg.

Definition bind {A B : Type} (r : Res A) (k : A → Res B) : Res B :=
  match r with
  | Ok a => k a
  | Err e => Err e
  end.

Notation "'do' x <- r ; k" := (bind r (λ x, k))
  (at level 10, x name, r at level 100, k at level 200, only parsing).

(** ** The Go runtime the client runs on

    What the client takes from its environment and cannot decide itself:
    the values used as contexts and as log functions, the validation that
    [http.NewRequestWithContext] performs, and the order in which one
    execution of [range] visits a map. *)

Class Runtime : Type := {
  Ctx : Type;
  LogFunc : Type;
  NewRequest_error : Ctx → string → string → option string;
  range_headers : gmap string string → list (string * string);
  range_headers_perm : ∀ m, range_headers m ≡ₚ map_to_list m
}.

Section Http.
Context `{RT : Runtime}.

(** The arguments [RawRequest] builds a request from, and the headers it
    sets on it. [URL] is the string given to [http.NewRequestWithContext],
    before that function parses it; [Body] is the content of the reader
    given to it. *)
Record Request : Type := {
  ReqCtx : Ctx;
  Method : string;
  URL : string;
  Header : gmap string (list string);
  Body : string
}.

(** [ioutil.ReadAll(resp.Body)]. *)
Inductive ReadResult : Type :=
| ReadOk (data : string)
| ReadErr (e : string).

Record Response : Type := {
  StatusCode : Z;
  Status : string;
  RespBody : ReadResult
}.

(** [http.Client.Do]: a transport error, or a response together with
    the number of request-body bytes the transport has read. *)
Inductive DoResult : Type :=
| DoErr (e : string)
| DoResp (sent : nat) (resp : Response).

(** A non-nil [http.Client] handle, by what its [Do] answers. *)
Definition Client : Type := Request → DoResult.

(** Calls that leave the client, in program order. A log function is
    recorded by its identity and the string it is given; it is taken to
    return, and to leave the caller's destination alone. *)
Inductive event : Type :=
| EvDo (req : Request)
| EvLog (f : LogFunc) (s : string)
| EvUnmarshal (data : string).

End Http.

Definition StatusOK : Z := 200.
Definition MethodPost : string := "POST".

(** The package-level [defaultClient]. *)
Class Package `{RT : Runtime} : Type := {
  defaultClient : Client
}.

(** ** JSON encoding of the envelope *)

(** [encoding/json] on the leaves of the envelope: a Go string as a JSON
    string literal, and a value of the variables map ([interface{}]), which
    fails on unsupported values. *)
Class JSONEncoder (V : Type) : Type := {
  encode_string : string → string;
  encode_value : V → Res string
}.

(** [strings.Join]. *)
Fixpoint Join (elems : list string) (sep : string) : string :=
  match elems with
  | [] => ""
  | [e] => e
  | e :: elems' => e +:+ sep +:+ Join elems' sep
  end.

Definition quoted (s : string) : string :=
  String Bytes.dquote (s +:+ String Bytes.dquote "").

Section Encoding.
Context {V : Type} `{ENC : JSONEncoder V}.

Definition key_le : relation (string * V) := λ a b, String.le a.1 b.1.

#[global] Instance key_le_dec : RelDecision key_le.
Proof. intros a b. unfold key_le. apply _. Defined.

(** Map entries in the order the encoder writes them: by key, bytewise. *)
Definition sorted_entries (m : gmap string V) : list (string * V) :=
  merge_sort key_le (map_to_list m).

Fixpoint encode_members (kvs : list (string * V)) : Res (list string) :=
  match kvs with
  | [] => Ok []
  | (k, v) :: kvs' =>
      do s <- encode_value v ;
      do ss <- encode_members kvs' ;
      Ok ((encode_string k +:+ ":" +:+ s) :: ss)
  end.

(** The text of one member: the key literal, a colon, the value. *)
Definition member_of (kv : string * V) (text : string) : Prop :=
  ∃ value, encode_value kv.2 = Ok value ∧ text = encode_string kv.1 +:+ ":" +:+ value.

(** A nil map is written as [null]. *)
Definition encode_map (m : option (gmap string V)) : Res string :=
  match m with
  | None => Ok "null"
  | Some m =>
      do ss <- encode_members (sorted_entries m) ;
      Ok ("{" +:+ Join ss "," +:+ "}")
  end.

(** The anonymous request struct of [query]. *)
Record envelope : Type := {
  Query : string;
  Variables : option (gmap string V)
}.

Definition Marshal (request : envelope) : Res string :=
  do vars <- encode_map (Variables request) ;
  Ok ("{" +:+ quoted "query" +:+ ":" +:+ encode_string (Query request)
      +:+ "," +:+ quoted "variables" +:+ ":" +:+ vars +:+ "}").

(** [json.NewEncoder(&b).Encode(request)]: the value, then a newline. *)
Definition Encode (request : envelope) : Res string :=
  do e <- Marshal request ;
  Ok (e +:+ String Bytes.newline "").

End Encoding.
Arguments envelope V : clear implicits.

(** ** JSON decoding of the response *)

Record ErrorItem : Type := { Message : string }.

(** The anonymous result struct of [RawRequest]; [Data] stands for the value
    the caller's [response] reference points to. *)
Record result (D : Type) : Type := {
  Data : D;
  Errors : list ErrorItem
}.
Arguments Data {D} r.
Arguments Errors {D} r.

(** [json.Unmarshal(data, &result)] for a destination of type [D]: the error
    it returns, if any, and the struct as the call leaves it. *)
Class Unmarshaler (D : Type) : Type := {
  Unmarshal : string → result D → option string * result D
}.

(** ** The client *)

Section GraphQLClient.
Context `{PKG : Package}.
Context {V : Type} `{ENC : JSONEncoder V}.
Context {D : Type} `{DEC : Unmarshaler D}.

(** [logFunc] is [None] for the nil function value. *)
Record GraphQL : Type := {
  url : string;
  headers : gmap string string;
  client : Client;
  logFunc : option LogFunc
}.

(** What one call leaves behind: the returned error ([None] for nil), the
    value behind the caller's [response] reference, and the calls made. *)
Record outcome : Type := {
  error : option string;
  response_after : D;
  trace : list event
}.

Definition New (url : string) (options : list (GraphQL → GraphQL)) : GraphQL :=
  let gql := {| url := TrimRight url "/" +:+ "/";
                headers := ∅;
                client := defaultClient;
                logFunc := None |} in
  foldl (λ gql option, option gql) gql options.

Definition WithClient (client : Client) : GraphQL → GraphQL :=
  λ gql, {| url := url gql; headers := headers gql;
            client := client; logFunc := logFunc gql |}.

Definition WithLogging (logFunc : option LogFunc) : GraphQL → GraphQL :=
  λ gql, {| url := url gql; headers := headers gql;
            client := client gql; logFunc := logFunc |}.

Definition WithHeader (key value : string) : GraphQL → GraphQL :=
  λ gql,
    if negb (String.eqb key "")
    then {| url := url gql; headers := <[key := value]> (headers gql);
            client := client gql; logFunc := logFunc gql |}
    else gql.

(** The options this package exports. *)
Inductive exported : (GraphQL → GraphQL) → Prop :=
| exported_WithClient c : exported (WithClient c)
| exported_WithLogging f : exported (WithLogging f)
| exported_WithHeader k v : exported (WithHeader k v).

Definition WithVariable (key : string) (value : V) : gmap string V → gmap string V :=
  λ m, <[key := value]> m.

(** The header block of [RawRequest]: three fixed entries, then one [Set]
    per configured header in the order [range] yields them. *)
Definition fixed_headers : gmap string (list string) :=
  Header_Set "Accept" "application/json"
    (Header_Set "Content-Type" "application/json"
       (Header_Set "Cache-Control" "no-cache" ∅)).

Definition request_headers (g : GraphQL) : gmap string (list string) :=
  foldl (λ h kv, Header_Set kv.1 kv.2 h) fixed_headers (range_headers (headers g)).

Definition new_request (g : GraphQL) (ctx : Ctx) (endpoint r : string) : Request :=
  {| ReqCtx := ctx; Method := MethodPost; URL := url g +:+ endpoint;
     Header := request_headers g; Body := r |}.

Definition log_line (request data : string) : string :=
  "request:[" +:+ request +:+ "] data:[" +:+ data +:+ "]".

Definition status_error (status : string) : string :=
  "graphql op error: status code: " +:+ status.

Definition decoding_error (e data : string) : string :=
  "graphql decoding error: " +:+ e +:+ " response: " +:+ data.

Definition op_error (request message : string) : string :=
  "graphql op error: request:[" +:+ request +:+ "] error:[" +:+ message +:+ "]".

(** [r] is the content of the reader; [request], the buffer behind the
    [io.TeeReader], holds the bytes the transport has read from it. *)
Definition RawRequest (g : GraphQL) (ctx : Ctx) (endpoint : string) (r : string)
    (response : D) : outcome :=
  match NewRequest_error ctx MethodPost (url g +:+ endpoint) with
  | Some e =>
      {| error := Some ("graphql create request error: " +:+ e);
         response_after := response; trace := [] |}
  | None =>
      let req := new_request g ctx endpoint r in
      match client g req with
      | DoErr e =>
          {| error := Some ("graphql request error: " +:+ e);
             response_after := response; trace := [EvDo req] |}
      | DoResp sent resp =>
          let request := Bytes.take sent r in
          match RespBody resp with
          | ReadErr e =>
              {| error := Some ("graphql copy error: " +:+ e);
                 response_after := response; trace := [EvDo req] |}
          | ReadOk data =>
              if negb (StatusCode resp =? StatusOK) then
                {| error := Some (status_error (Status resp));
                   response_after := response; trace := [EvDo req] |}
              else
                let logged :=
                  match logFunc g with
                  | Some f => [EvLog f (log_line request data)]
                  | None => []
                  end in
                let '(uerr, result) :=
                  Unmarshal data {| Data := response; Errors := [] |} in
                let tr := EvDo req :: logged ++ [EvUnmarshal data] in
                match uerr with
                | Some e =>
                    {| error := Some (decoding_error e data);
                       response_after := Data result; trace := tr |}
                | None =>
                    match Errors result with
                    | e0 :: _ =>
                        {| error := Some (op_error request (Message e0));
                           response_after := Data result; trace := tr |}
                    | [] =>
                        {| error := None;
                           response_after := Data result; trace := tr |}
                    end
                end
          end
      end
  end.

Definition query (g : GraphQL) (ctx : Ctx) (endpoint queryString : string)
    (queryVars : option (gmap string V)) (response : D) : outcome :=
  let request := {| Query := queryString; Variables := queryVars |} in
  match Encode request with
  | Err e =>
      {| error := Some ("graphql encoding error: " +:+ e);
         response_after := response; trace := [] |}
  | Ok b => RawRequest g ctx endpoint b response
  end.

Definition Execute (g : GraphQL) (ctx : Ctx) (queryString : string) (response : D)
    (variables : list (gmap string V → gmap string V)) : outcome :=
  let queryVars :=
    if (0 <? length variables)%nat
    then Some (foldl (λ queryVars variable, variable queryVars) ∅ variables)
    else None in
  query g ctx "graphql" queryString queryVars response.

Definition ExecuteOnEndpoint (g : GraphQL) (ctx : Ctx) (endpoint queryString : string)
    (response : D) (variables : list (gmap string V → gmap string V)) : outcome :=
  let queryVars :=
    if (0 <? length variables)%nat
    then Some (foldl (λ queryVars variable, variable queryVars) ∅ variables)
    else None in
  query g ctx endpoint queryString queryVars response.

End GraphQLClient.

(** ** A reference JSON reader

    A reader for the JSON texts of RFC 8259, and on top of it the way
    [encoding/json] fills the result struct of [RawRequest]. It serves the
    concrete runs below; the general statements range over every
    [Unmarshaler]. *)

Module JSON.

#[local] Unset Elimination Schemes.

Inductive json : Type :=
| JNull
| JBool (b : bool)
| JNumber (literal : string)
| JString (s : string)
| JArray (items : list json)
| JObject (members : list (string * json)).

#[local] Set Elimination Schemes.

Definition isSpace (c : ascii) : bool := Bytes.contains c (" " +:+ String (ascii_of_nat 9) (String (ascii_of_nat 10) (String (ascii_of_nat 13) ""))).

Fixpoint skip_space (s : string) : string :=
  match s with
  | String c s' => if isSpace c then skip_space s' else s
  | EmptyString => EmptyString
  end.

Fixpoint strip_prefix (p s : string) : option string :=
  match p, s with
  | EmptyString, _ => Some s
  | String a p', String b s' => if Ascii.eqb a b then strip_prefix p' s' else None
  | _, _ => None
  end.

(** Longest prefix of digits, and what follows it. *)
Fixpoint digits (s : string) : string * string :=
  match s with
  | String c s' =>
      if Bytes.isDigit c then let '(d, r) := digits s' in (String c d, r)
      else (EmptyString, s)
  | EmptyString => (EmptyString, EmptyString)
  end.

(** A number literal: an optional minus sign; a zero, or a non-zero digit
    and more digits; optionally a point and digits; optionally an exponent
    mark, a sign and digits. *)
Definition scan_number (s : string) : option (string * string) :=
  let '(sign, s1) :=
    match s with String "-" s' => ("-", s') | _ => (EmptyString, s) end in
  match s1 with
  | String c s2 =>
      if Bytes.isDigit c then
        let '(int, s3) :=
          if Ascii.eqb c "0" then ("0", s2)
          else let '(d, r) := digits s2 in (String c d, r) in
        let frac :=
          match s3 with
          | String "." s4 =>
              match digits s4 with
              | (EmptyString, _) => None
              | (d, r) => Some ("." +:+ d, r)
              end
          | _ => Some (EmptyString, s3)
          end in
        match frac with
        | None => None
        | Some (f, s5) =>
            match s5 with
            | String e s6 =>
                if Bytes.contains e "eE" then
                  let '(esign, s7) :=
                    match s6 with
                    | String "+" s' => ("+", s')
                    | String "-" s' => ("-", s')
                    | _ => (EmptyString, s6)
                    end in
                  match digits s7 with
                  | (EmptyString, _) => None
                  | (d, r) => Some (sign +:+ int +:+ f +:+ String e esign +:+ d, r)
                  end
                else Some (sign +:+ int +:+ f, s5)
            | EmptyString => Some (sign +:+ int +:+ f, s5)
            end
        end
      else None
  | EmptyString => None
  end.

Definition hex_digit (c : ascii) : option N :=
  if Bytes.isDigit c then Some (N_of_ascii c - 48)%N
  else if Bytes.between "a" "f" c then Some (N_of_ascii c - 87)%N
  else if Bytes.between "A" "F" c then Some (N_of_ascii c - 55)%N
  else None.

(** [getu4] past the backslash-u: four hex digits. *)
Definition hex4 (s : string) : option (N * string) :=
  match s with
  | String a (String b (String c (String d r))) =>
      match hex_digit a, hex_digit b, hex_digit c, hex_digit d with
      | Some x, Some y, Some z, Some w => Some ((((x * 16 + y) * 16 + z) * 16 + w)%N, r)
      | _, _, _, _ => None
      end
  | _ => None
  end.

(** [utf8.EncodeRune] for a code point below 0x110000. *)
Definition utf8 (r : N) : string :=
  let b (n : N) := ascii_of_N n in
  (if r <? 128 then String (b r) ""
   else if r <? 2048 then
     String (b (192 + r / 64)) (String (b (128 + r mod 64)) "")
   else if r <? 65536 then
     String (b (224 + r / 4096))
       (String (b (128 + (r / 64) mod 64)) (String (b (128 + r mod 64)) ""))
   else
     String (b (240 + r / 262144))
       (String (b (128 + (r / 4096) mod 64))
          (String (b (128 + (r / 64) mod 64)) (String (b (128 + r mod 64)) ""))))%N.

Definition isSurrogate (r : N) : bool := ((55296 <=? r) && (r <? 57344))%N.

(** The rune of a backslash-u escape whose digits gave [r], pairing it
    with a following low surrogate when it is a high one; a surrogate
    with no partner becomes U+FFFD. *)
Definition escaped_rune (r : N) (rest : string) : N * string :=
  if isSurrogate r then
    match rest with
    | String "\" (String "u" rest') =>
        match hex4 rest' with
        | Some (r1, rest'') =>
            if ((r <? 56320) && (56320 <=? r1) && (r1 <? 57344))%N
            then ((65536 + (r - 55296) * 1024 + (r1 - 56320))%N, rest'')
            else (65533%N, rest)
        | None => (65533%N, rest)
        end
    | _ => (65533%N, rest)
    end
  else (r, rest).

(** The body of a string literal, after its opening quote. *)
Fixpoint scan_string (fuel : nat) (s : string) : option (string * string) :=
  match fuel with
  | O => None
  | S fuel' =>
      match s with
      | EmptyString => None
      | String c s' =>
          if Ascii.eqb c Bytes.dquote then Some (EmptyString, s')
          else if Ascii.eqb c "\" then
            match s' with
            | String e s'' =>
                let simple (b : ascii) :=
                  match scan_string fuel' s'' with
                  | Some (t, r) => Some (String b t, r)
                  | None => None
                  end in
                if Ascii.eqb e Bytes.dquote then simple Bytes.dquote
                else if Ascii.eqb e "\" then simple "\"%char
                else if Ascii.eqb e "/" then simple "/"%char
                else if Ascii.eqb e "b" then simple (ascii_of_nat 8)
                else if Ascii.eqb e "f" then simple (ascii_of_nat 12)
                else if Ascii.eqb e "n" then simple (ascii_of_nat 10)
                else if Ascii.eqb e "r" then simple (ascii_of_nat 13)
                else if Ascii.eqb e "t" then simple (ascii_of_nat 9)
                else if Ascii.eqb e "u" then
                  match hex4 s'' with
                  | Some (r, rest) =>
                      let '(rune, rest') := escaped_rune r rest in
                      match scan_string fuel' rest' with
                      | Some (t, r') => Some (utf8 rune +:+ t, r')
                      | None => None
                      end
                  | None => None
                  end
                else None
            | EmptyString => None
            end
          else if (nat_of_ascii c <? 32)%nat then None
          else
            match scan_string fuel' s' with
            | Some (t, r) => Some (String c t, r)
            | None => None
            end
      end
  end.

(** Values, object members and array items, by recursive descent. Every
    recursive call follows the consumption of a byte, so a fuel above the
    length of the text is never exhausted. *)
Fixpoint parse_value (fuel : nat) (s : string) : option (json * string) :=
  match fuel with
  | O => None
  | S fuel' =>
      match skip_space s with
      | EmptyString => None
      | String c rest =>
          if Ascii.eqb c "{" then
            match skip_space rest with
            | String "}" rest' => Some (JObject [], rest')
            | _ =>
                match parse_members fuel' rest with
                | Some (ms, r) => Some (JObject ms, r)
                | None => None
                end
            end
          else if Ascii.eqb c "[" then
            match skip_space rest with
            | String "]" rest' => Some (JArray [], rest')
            | _ =>
                match parse_items fuel' rest with
                | Some (js, r) => Some (JArray js, r)
                | None => None
                end
            end
          else if Ascii.eqb c Bytes.dquote then
            match scan_string (String.length rest) rest with
            | Some (t, r) => Some (JString t, r)
            | None => None
            end
          else if Ascii.eqb c "t" then
            option_map (pair (JBool true)) (strip_prefix "rue" rest)
          else if Ascii.eqb c "f" then
            option_map (pair (JBool false)) (strip_prefix "alse" rest)
          else if Ascii.eqb c "n" then
            option_map (pair JNull) (strip_prefix "ull" rest)
          else
            match scan_number (String c rest) with
            | Some (lit, r) => Some (JNumber lit, r)
            | None => None
            end
      end
  end
with parse_members (fuel : nat) (s : string) : option (list (string * json) * string) :=
  match fuel with
  | O => None
  | S fuel' =>
      match skip_space s with
      | EmptyString => None
      | String c rest =>
          if Ascii.eqb c Bytes.dquote then
            match scan_string (String.length rest) rest with
            | Some (k, r1) =>
                match skip_space r1 with
                | String ":" r2 =>
                    match parse_value fuel' r2 with
                    | Some (v, r3) =>
                        match skip_space r3 with
                        | String "," r4 =>
                            match parse_members fuel' r4 with
                            | Some (ms, r5) => Some ((k, v) :: ms, r5)
                            | None => None
                            end
                        | String "}" r4 => Some ([(k, v)], r4)
                        | _ => None
                        end
                    | None => None
                    end
                | _ => None
                end
            | None => None
            end
          else None
      end
  end
with parse_items (fuel : nat) (s : string) : option (list json * string) :=
  match fuel with
  | O => None
  | S fuel' =>
      match parse_value fuel' s with
      | Some (v, r1) =>
          match skip_space r1 with
          | String "," r2 =>
              match parse_items fuel' r2 with
              | Some (js, r3) => Some (v :: js, r3)
              | None => None
              end
          | String "]" r2 => Some ([v], r2)
          | _ => None
          end
      | None => None
      end
  end.

(** A whole text: one value, with white space around it (what
    [checkValid] accepts). *)
Definition parse (s : string) : option json :=
  match parse_value (S (S (String.length s))) s with
  | Some (j, r) =>
      match skip_space r with
      | EmptyString => Some j
      | _ => None
      end
  | None => None
  end.

(** *** Filling the result struct

    A key selects the field whose name it equals up to the case of ASCII
    letters. The first type mismatch is remembered and decoding goes on.
    A null leaves its target as it is, except that it resets the [Data]
    interface, after which later values for that key no longer reach the
    caller's destination. Error texts are shortened. *)

Definition kind (j : json) : string :=
  match j with
  | JNull => "null"
  | JBool _ => "bool"
  | JNumber _ => "number"
  | JString _ => "string"
  | JArray _ => "array"
  | JObject _ => "object"
  end.

Definition type_error (j : json) (type : string) : string :=
  "json: cannot unmarshal " +:+ kind j +:+ " into Go value of type " +:+ type.

Definition syntax_error : string := "json: invalid JSON input".

Fixpoint lower (s : string) : string :=
  match s with
  | EmptyString => EmptyString
  | String c s' => String (if Bytes.isUpper c then Bytes.toLower c else c) (lower s')
  end.

Definition equalFold (a b : string) : bool := String.eqb (lower a) (lower b).

(** [saveError]: the first error wins. *)
Definition saveError (saved new : option string) : option string :=
  match saved with
  | Some _ => saved
  | None => new
  end.

(** How values are stored into the caller's destination type. *)
Class Destination (D : Type) : Type := {
  store : json → D → option string * D
}.

(** A destination of Go type [*string]. *)
Definition string_destination : Destination string :=
  {| store j d :=
       match j with
       | JString s => (None, s)
       | JNull => (None, d)
       | _ => (Some (type_error j "string"), d)
       end |}.

Definition store_message (st : option string * ErrorItem) (kv : string * json)
  : option string * ErrorItem :=
  if equalFold kv.1 "Message" then
    match kv.2 with
    | JString s => (st.1, {| Message := s |})
    | JNull => st
    | v => (saveError st.1 (Some (type_error v "string")), st.2)
    end
  else st.

Definition store_item (j : json) (item : ErrorItem) : option string * ErrorItem :=
  match j with
  | JNull => (None, item)
  | JObject ms => foldl store_message (None, item) ms
  | _ => (Some (type_error j "struct { Message string }"), item)
  end.

(** Array items go into the elements the slice already has, then into
    fresh ones; the slice ends up as long as the array. *)
Fixpoint store_items (items : list json) (old : list ErrorItem)
  : option string * list ErrorItem :=
  match items with
  | [] => (None, [])
  | j :: items' =>
      let '(e1, item) := store_item j (hd {| Message := "" |} old) in
      let '(e2, rest) := store_items items' (tl old) in
      (saveError e1 e2, item :: rest)
  end.

Section Result.
Context {D : Type} `{DST : Destination D}.

(** Decoder state: saved error, whether [Data] still holds the caller's
    reference, and the struct. *)
Definition store_field (st : option string * bool * result D) (kv : string * json)
  : option string * bool * result D :=
  let '(saved, bound, res) := st in
  if equalFold kv.1 "Data" then
    match kv.2 with
    | JNull => (saved, false, res)
    | v =>
        if bound then
          let '(e, d) := store v (Data res) in
          (saveError saved e, true, {| Data := d; Errors := Errors res |})
        else st
    end
  else if equalFold kv.1 "Errors" then
    match kv.2 with
    | JNull => (saved, bound, {| Data := Data res; Errors := [] |})
    | JArray items =>
        let '(e, items') := store_items items (Errors res) in
        (saveError saved e, bound, {| Data := Data res; Errors := items' |})
    | v =>
        (saveError saved (Some (type_error v "[]struct { Message string }")),
         bound, res)
    end
  else st.

Definition unmarshal_result (data : string) (res : result D)
  : option string * result D :=
  match parse data with
  | None => (Some syntax_error, res)
  | Some JNull => (None, res)
  | Some (JObject ms) =>
      let '(saved, _, res') := foldl store_field (None, true, res) ms in
      (saved, res')
  | Some j => (Some (type_error j "struct"), res)
  end.

Definition unmarshaler : Unmarshaler D := {| Unmarshal := unmarshal_result |}.

End Result.

End JSON.

(** ** Reference instances

    One runtime, one encoder and a few transports to run the client on. *)

Module Reference.

(** Values put in the variables map: nil, booleans, integers, strings,
    and a channel, which [encoding/json] refuses. *)
Inductive value : Type :=
| VNil
| VBool (b : bool)
| VInt (n : Z)
| VString (s : string)
| VChan.

Definition hex (n : nat) : ascii :=
  match String.get n "0123456789abcdef" with
  | Some c => c
  | None => "0"%char
  end.

(** The JSON string encoder with HTML escaping on, for ASCII text: bytes
    from 0x80 up are copied. *)
Fixpoint escape (s : string) : string :=
  match s with
  | EmptyString => EmptyString
  | String c s' =>
      let n := nat_of_ascii c in
      (if Ascii.eqb c Bytes.dquote then String "\" (String Bytes.dquote "")
       else if Ascii.eqb c "\" then "\\"
       else if (n =? 10)%nat then "\n"
       else if (n =? 13)%nat then "\r"
       else if (n =? 9)%nat then "\t"
       else if (n <? 32)%nat || Bytes.contains c "<>&" then
         "\u00" +:+ String (hex (n / 16)) (String (hex (n mod 16)) "")
       else String c "") +:+ escape s'
  end.

Definition encoder : JSONEncoder value :=
  {| encode_string s := quoted (escape s);
     encode_value v :=
       match v with
       | VNil => Ok "null"
       | VBool true => Ok "true"
       | VBool false => Ok "false"
       | VInt n => Ok (pretty n)
       | VString s => Ok (quoted (escape s))
       | VChan => Err "json: unsupported type: chan int"
       end |}.

(** [url.Parse] refuses a URL that holds a control byte. *)
Definition isControl (c : ascii) : bool :=
  (nat_of_ascii c <? 32)%nat || (nat_of_ascii c =? 127)%nat.

Definition runtime : Runtime :=
  {| Ctx := unit;
     LogFunc := string;
     NewRequest_error := λ _ _ u,
       if Bytes.all (λ c, negb (isControl c)) u then None
       else Some "net/url: invalid control character in URL";
     range_headers := map_to_list;
     range_headers_perm := λ m, Permutation_refl (map_to_list m) |}.

(** A transport that reads the whole request and answers with a fixed
    status line and body. *)
Definition server (code : Z) (status body : string) : @Client runtime :=
  λ req, DoResp (String.length (Body req))
           {| StatusCode := code; Status := status; RespBody := ReadOk body |}.

(** A transport whose response body breaks off while it is read. *)
Definition broken_server (code : Z) (status : string) : @Client runtime :=
  λ req, DoResp (String.length (Body req))
           {| StatusCode := code; Status := status;
              RespBody := ReadErr "unexpected EOF" |}.

(** A transport that cannot connect. *)
Definition unreachable : @Client runtime :=
  λ _, DoErr "dial tcp: connection refused".

Definition package : @Package runtime := {| defaultClient := unreachable |}.

(** JSON texts are written with single quotes for double ones. *)
Fixpoint js (s : string) : string :=
  match s with
  | EmptyString => EmptyString
  | String c s' => String (if Ascii.eqb c "'" then Bytes.dquote else c) (js s')
  end.

End Reference.

(** ** Scenarios

    Clients and exchanges on the reference runtime, among them the ones the
    package's tests and the specification's testable properties describe. *)

Module Scenario.
Import Reference.

#[export] Existing Instance runtime.
#[export] Existing Instance package.
#[export] Existing Instance encoder.

(** Destinations are Go strings. *)
#[export] Instance string_unmarshaler : Unmarshaler string :=
  JSON.unmarshaler (DST := JSON.string_destination).

Definition base : string := "http://localhost:8080".

(** The query of the package's tests. *)
Definition city_query : string :=
  js "query { getCity(id: '0x01') { id name lat lng } }".

Definition city_body : string :=
  js "{'query':'query { getCity(id: \'0x01\') { id name lat lng } }','variables':null}"
  +:+ String Bytes.newline "".

(** A server that reports two errors and no data. *)
Definition errors_body : string :=
  js "{'errors':[{'message':'boom'},{'message':'bang'}]}".

Definition failing : GraphQL :=
  New base [WithClient (server 200 "200 OK" errors_body)].

(** A server that answers with data, and a client that logs. *)
Definition data_body : string := js "{'data':'Lisbon'}".

Definition logging : GraphQL :=
  New base [WithLogging (Some "sink"); WithClient (server 200 "200 OK" data_body)].


(** A server in trouble, with a readable body and with a broken one. *)
Definition unavailable : GraphQL :=
  New base [WithLogging (Some "sink");
            WithClient (server 500 "500 Internal Server Error" errors_body)].

Definition unavailable_broken : GraphQL :=
  New base [WithClient (broken_server 500 "500 Internal Server Error")].

(** A server that sends data along with an error. *)
Definition partial_body : string :=
  js "{'data':'Lisbon','errors':[{'message':'boom'}]}".

Definition partial : GraphQL :=
  New base [WithClient (server 200 "200 OK" partial_body)].

(** Header configurations. *)
Definition with_x : GraphQL :=
  New base [WithHeader "X" "Y"; WithHeader "" "Z";
            WithClient (server 200 "200 OK" data_body)].

Definition with_content_type : GraphQL :=
  New base [WithHeader "content-type" "application/graphql";
            WithClient (server 200 "200 OK" data_body)].

Definition with_two_spellings : GraphQL :=
  New base [WithHeader "x-a" "1"; WithHeader "X-A" "2";
            WithClient (server 200 "200 OK" data_body)].

End Scenario.

(** ** Further scenarios *)

Module Cases.
Import Reference Scenario.

(** A base URL with a tab in it, which [url.Parse] refuses. *)
Definition bad_base : string := base +:+ String (ascii_of_nat 9) "".

Definition misaddressed : GraphQL :=
  New bad_base [WithLogging (Some "sink")].

(** A client left with the package's default transport, here one that
    cannot connect. *)
Definition offline : GraphQL := New base [WithLogging (Some "sink")].

(** A server whose data does not fit the destination, with an error. *)
Definition mismatch_body : string := js "{'errors':[{'message':'boom'}],'data':5}".

Definition mismatched : GraphQL :=
  New base [WithLogging (Some "sink"); WithClient (server 200 "200 OK" mismatch_body)].

(** A server that reports two errors and data that does not fit. *)
Definition unfit_body : string :=
  js "{'errors':[{'message':'boom'},{'message':'bang'}],'data':5}".

Definition unfit : GraphQL :=
  New base [WithClient (server 200 "200 OK" unfit_body)].

(** Three bindings, two of them for one key. *)
Definition rebound : list (gmap string value → gmap string value) :=
  [WithVariable "key2" (VString "hello");
   WithVariable "key1" (VInt 7);
   WithVariable "key1" (VInt 10)].

Definition rebound_body : string :=
  js "{'query':'query { getCity(id: \'0x01\') { id name lat lng } }','variables':{'key1':10,'key2':'hello'}}"
  +:+ String Bytes.newline "".

(** Options that set the same fields more than once. *)
Definition reconfigured : list (GraphQL → GraphQL) :=
  [WithClient (server 500 "500 Internal Server Error" errors_body);
   WithLogging (Some "first");
   WithClient (server 200 "200 OK" data_body);
   WithLogging (Some "second");
   WithHeader "X" "Y"].

Definition reheadered : list (GraphQL → GraphQL) :=
  [WithHeader "X" "1"; WithHeader "X" "2"; WithHeader "Y" "3"].

End Cases.

(** * Properties *)

(** ** What a run shows to the outside *)

Section Observations.
Context `{RT : Runtime}.

(** The strings handed to log functions, in order. *)
Definition log_calls (tr : list event) : list (LogFunc * string) :=
  omap (λ ev, match ev with EvLog f s => Some (f, s) | _ => None end) tr.

(** The requests handed to the transport. *)
Definition requests (tr : list event) : list Request :=
  omap (λ ev, match ev with EvDo req => Some req | _ => None end) tr.

(** The texts handed to the decoder. *)
Definition decoded (tr : list event) : list string :=
  omap (λ ev, match ev with EvUnmarshal data => Some data | _ => None end) tr.

(** A request carries [value] under the header name [key], names being
    compared the way HTTP compares them. *)
Definition carries (req : Request) (key value : string) : Prop :=
  Header req !! CanonicalMIMEHeaderKey key = Some [value].

End Observations.

(** The variables map as the specification words it: absent without
    mutators, otherwise an empty map to which they are applied in order. *)
Definition apply_variables {V : Type} (variables : list (gmap string V → gmap string V))
  : option (gmap string V) :=
  match variables with
  | [] => None
  | _ => Some (foldl (λ m mutate, mutate m) ∅ variables)
  end.

(** The envelope as the wire protocol words it, given the JSON texts of the
    query string and of the variables. *)
Definition envelope_text (query variables : string) : string :=
  "{" +:+ quoted "query" +:+ ":" +:+ query +:+ ","
  +:+ quoted "variables" +:+ ":" +:+ variables +:+ "}".

(** A string ends with exactly one [c]. *)
Definition ends_with_one (c : ascii) (s : string) : Prop :=
  Bytes.HasSuffix s (String c "") = true ∧
  Bytes.HasSuffix s (String c (String c "")) = false.

(** ** Strings *)

Section StringFacts.

Lemma app_nil_l (s : string) : "" +:+ s = s.
Proof. done. Qed.

Lemma app_cons (a : ascii) (s t : string) : String a s +:+ t = String a (s +:+ t).
Proof. done. Qed.

Lemma app_assoc (s t u : string) : (s +:+ t) +:+ u = s +:+ t +:+ u.
Proof. induction s as [|a s IH]; [done|]. by rewrite !app_cons, IH. Qed.

Lemma eqb_eq (s t : string) : String.eqb s t = true ↔ s = t.
Proof. apply String.eqb_eq. Qed.

Lemma HasSuffix_cons (a : ascii) (s suffix : string) :
  Bytes.HasSuffix (String a s) suffix
  = String.eqb (String a s) suffix || Bytes.HasSuffix s suffix.
Proof. done. Qed.

Lemma HasSuffix_app (p suffix : string) : Bytes.HasSuffix (p +:+ suffix) suffix = true.
Proof.
  induction p as [|a p IH].
  - rewrite app_nil_l. destruct suffix; [done|].
    by rewrite HasSuffix_cons, String.eqb_refl.
  - rewrite app_cons, HasSuffix_cons, IH. apply orb_true_r.
Qed.

Lemma HasSuffix_inv (s suffix : string) :
  Bytes.HasSuffix s suffix = true → ∃ p, s = p +:+ suffix.
Proof.
  induction s as [|a s IH].
  - destruct suffix; [by exists ""|done].
  - rewrite HasSuffix_cons.
    intros [->%eqb_eq | [p ->]%IH]%orb_true_iff.
    + by exists "".
    + by exists (String a p).
Qed.

Lemma app_inj_last (s t : string) (a b : ascii) :
  s +:+ String a "" = t +:+ String b "" → s = t ∧ a = b.
Proof.
  revert t. induction s as [|x s IH]; intros [|y t];
    rewrite ?app_nil_l, ?app_cons; intros H.
  - by injection H as ->.
  - injection H as -> H. by destruct t.
  - injection H as -> H. by destruct s.
  - injection H as -> H. apply IH in H as [-> ->]. done.
Qed.

Lemma TrimRight_ends (s cutset t : string) (c : ascii) :
  TrimRight s cutset = t +:+ String c "" → Bytes.contains c cutset = false.
Proof.
  revert t. induction s as [|a s IH]; intros t; simpl.
  - by destruct t.
  - destruct (TrimRight s cutset) as [|b u] eqn:Hu.
    + destruct (Bytes.contains a cutset) eqn:Ha; [by destruct t|].
      destruct t as [|y t]; rewrite ?app_nil_l, ?app_cons; intros H.
      * by injection H as ->.
      * injection H as -> H. by destruct t.
    + destruct t as [|y t]; rewrite ?app_nil_l, ?app_cons; intros H.
      * done.
      * injection H as -> H. by apply (IH t).
Qed.

Lemma TrimRight_repeat (s : string) (c : ascii) (n : nat) :
  TrimRight (s +:+ Bytes.repeat c n) (String c "") = TrimRight s (String c "").
Proof.
  induction s as [|a s IH].
  - rewrite app_nil_l. induction n as [|n IHn]; simpl; [done|].
    rewrite IHn. by rewrite Ascii.eqb_refl.
  - rewrite app_cons. simpl. by rewrite IH.
Qed.

Lemma ends_with_one_app (t : string) (c : ascii) :
  (∀ u, t ≠ u +:+ String c "") → ends_with_one c (t +:+ String c "").
Proof.
  intros Ht. split; [apply HasSuffix_app|].
  destruct (Bytes.HasSuffix _ _) eqn:H; [|done].
  apply HasSuffix_inv in H as [p H].
  change (String c (String c "")) with (String c "" +:+ String c "") in H.
  rewrite <- app_assoc in H. apply app_inj_last in H as [H _].
  by destruct (Ht p).
Qed.

End StringFacts.

(** ** Header maps *)

Section HeaderFacts.
Implicit Types (h : gmap string (list string)) (l : list (string * string)).

Lemma canonicalize_length (upper : bool) (s : string) :
  String.length (canonicalize upper s) = String.length s.
Proof. revert upper. induction s as [|c s IH]; intros upper; simpl; [done|]. by rewrite IH. Qed.

Lemma CanonicalMIMEHeaderKey_empty (key : string) :
  CanonicalMIMEHeaderKey key = "" → key = "".
Proof.
  intros H. assert (String.length (CanonicalMIMEHeaderKey key) = String.length key) as Hl.
  { unfold CanonicalMIMEHeaderKey. destruct (Bytes.all _ _); [apply canonicalize_length|done]. }
  rewrite H in Hl. by destruct key.
Qed.

Lemma Header_Set_lookup (key value name : string) h :
  Header_Set key value h !! name
  = if decide (CanonicalMIMEHeaderKey key = name) then Some [value] else h !! name.
Proof. unfold Header_Set. apply lookup_insert. Qed.

(** Names that no overlaid key canonicalises to keep their entry. *)
Lemma overlay_untouched h l (name : string) :
  (∀ kv, kv ∈ l → CanonicalMIMEHeaderKey kv.1 ≠ name) →
  foldl (λ h kv, Header_Set kv.1 kv.2 h) h l !! name = h !! name.
Proof.
  revert h. induction l as [|x l IH]; intros h Hl; simpl; [done|].
  rewrite IH by (intros kv ?; apply Hl; by right).
  rewrite Header_Set_lookup. case_decide as Hx; [|done].
  destruct (Hl x); [by left|done].
Qed.

(** A name some overlaid key canonicalises to ends up with the value of
    one of those keys. *)
Lemma overlay_replaced h l (name : string) kv :
  kv ∈ l → CanonicalMIMEHeaderKey kv.1 = name →
  ∃ kv', kv' ∈ l ∧ CanonicalMIMEHeaderKey kv'.1 = name ∧
         foldl (λ h kv, Header_Set kv.1 kv.2 h) h l !! name = Some [kv'.2].
Proof.
  revert h kv. induction l as [|x l IH]; intros h kv Hin Hkv;
    [by apply elem_of_nil in Hin|].
  destruct (decide (Exists (λ kv', CanonicalMIMEHeaderKey kv'.1 = name) l)) as [Hex|Hno].
  - apply Exists_exists in Hex as (kv1 & Hin1 & Hkv1).
    destruct (IH (Header_Set x.1 x.2 h) kv1 Hin1 Hkv1) as (kv' & ? & ? & ?).
    exists kv'. split; [by right|done].
  - assert (∀ kv', kv' ∈ l → CanonicalMIMEHeaderKey kv'.1 ≠ name) as Hl.
    { intros kv' Hin' Heq. apply Hno, Exists_exists. eauto. }
    apply elem_of_cons in Hin as [->|Hin]; [|by destruct (Hl kv)].
    exists x. split; [by left|]. split; [done|]. simpl.
    rewrite overlay_untouched by done.
    rewrite Header_Set_lookup. by rewrite decide_True.
Qed.

(** The only key with its canonical form decides the entry. *)
Lemma overlay_unique h l kv :
  kv ∈ l →
  (∀ kv', kv' ∈ l → CanonicalMIMEHeaderKey kv'.1 = CanonicalMIMEHeaderKey kv.1 → kv' = kv) →
  foldl (λ h kv, Header_Set kv.1 kv.2 h) h l !! CanonicalMIMEHeaderKey kv.1 = Some [kv.2].
Proof.
  intros Hin Huniq.
  destruct (overlay_replaced h l _ kv Hin eq_refl) as (kv' & Hin' & Hc & ->).
  by rewrite (Huniq kv' Hin' Hc).
Qed.

(** Two spellings of one header name share one entry. *)
Lemma one_entry_per_name h (k1 k2 v1 v2 : string) :
  CanonicalMIMEHeaderKey k1 = CanonicalMIMEHeaderKey k2 →
  h !! CanonicalMIMEHeaderKey k1 = Some [v1] →
  h !! CanonicalMIMEHeaderKey k2 = Some [v2] →
  v1 = v2.
Proof. intros ->. congruence. Qed.

End HeaderFacts.

(** ** The client: construction and request building *)

Section ClientFacts.
Context `{PKG : Package}.

Lemma exported_url option gql : exported option → url (option gql) = url gql.
Proof.
  intros [c|f|k v]; [done..|]. unfold WithHeader. by destruct (negb _).
Qed.

Lemma exported_no_empty_key option gql :
  exported option → headers gql !! "" = None → headers (option gql) !! "" = None.
Proof.
  intros [c|f|k v] Hg; [done..|]. unfold WithHeader.
  destruct (String.eqb k "") eqn:Hk; simpl; [done|].
  rewrite lookup_insert_ne; [done|]. intros ->. by rewrite String.eqb_refl in Hk.
Qed.

Lemma foldl_options_url (options : list (GraphQL → GraphQL)) gql :
  Forall (λ option, ∀ gql, url (option gql) = url gql) options →
  url (foldl (λ gql option, option gql) gql options) = url gql.
Proof.
  revert gql. induction options as [|o options IH]; intros gql Hall; simpl; [done|].
  apply Forall_cons in Hall as [Ho Hall]. by rewrite IH, Ho.
Qed.

Lemma New_url (u : string) (options : list (GraphQL → GraphQL)) :
  Forall (λ option, ∀ gql, url (option gql) = url gql) options →
  url (New u options) = TrimRight u "/" +:+ "/".
Proof. intros Hall. unfold New. by rewrite foldl_options_url. Qed.

Lemma New_no_empty_key (u : string) (options : list (GraphQL → GraphQL)) :
  Forall exported options → headers (New u options) !! "" = None.
Proof.
  unfold New. generalize (TrimRight u "/" +:+ "/"). intros u'.
  assert (headers {| url := u'; headers := ∅; client := defaultClient;
                     logFunc := None |} !! "" = None) as H0 by done.
  revert H0. generalize ({| url := u'; headers := ∅; client := defaultClient;
                            logFunc := None |}).
  induction options as [|o options IH]; intros gql H0 Hall; simpl; [done|].
  apply Forall_cons in Hall as [Ho Hall].
  apply IH; [|done]. by apply exported_no_empty_key.
Qed.

(** What [range] yields are the entries of the map. *)
Lemma range_headers_elem (m : gmap string string) (kv : string * string) :
  kv ∈ range_headers m ↔ m !! kv.1 = Some kv.2.
Proof.
  rewrite (range_headers_perm m). destruct kv as [k v]. apply elem_of_map_to_list.
Qed.

End ClientFacts.

(** ** One call *)

Section Calls.
Context `{PKG : Package}.
Context {V : Type} `{ENC : JSONEncoder V}.
Context {D : Type} `{DEC : Unmarshaler D}.

Implicit Types (g : GraphQL) (ctx : Ctx) (endpoint r q : string) (response : D).
Implicit Types (variables : list (gmap string V → gmap string V)).

(** Destructs the calls [RawRequest] makes, in the order it makes them. *)
Ltac run_RawRequest :=
  unfold RawRequest;
  repeat match goal with
    | H : ?x = _ |- context [match ?x with _ => _ end] => rewrite H
    | |- context [match NewRequest_error ?a ?b ?c with _ => _ end] =>
        destruct (NewRequest_error a b c) eqn:?
    | |- context [match client ?g ?req with _ => _ end] =>
        destruct (client g req) eqn:?
    | |- context [match RespBody ?resp with _ => _ end] =>
        destruct (RespBody resp) eqn:?
    | |- context [if negb (?a =? ?b) then _ else _] =>
        destruct (Z.eqb_spec a b); simpl negb; cbv iota
    | |- context [Unmarshal ?data ?init] =>
        destruct (Unmarshal data init) as [[?|] [? [|? ?]]] eqn:?
    | |- context [match logFunc ?g with _ => _ end] =>
        destruct (logFunc g) eqn:?
    end;
  simpl.

Lemma RawRequest_requests g ctx endpoint r response :
  requests (trace (RawRequest g ctx endpoint r response))
  = match NewRequest_error ctx MethodPost (url g +:+ endpoint) with
    | None => [new_request g ctx endpoint r]
    | Some _ => []
    end.
Proof. run_RawRequest; reflexivity. Qed.

Lemma RawRequest_request g ctx endpoint r response (req : Request) :
  req ∈ requests (trace (RawRequest g ctx endpoint r response)) →
  req = new_request g ctx endpoint r.
Proof.
  rewrite RawRequest_requests. destruct (NewRequest_error _ _ _).
  - intros []%elem_of_nil.
  - by intros ->%list_elem_of_singleton.
Qed.

Lemma ExecuteOnEndpoint_query g ctx endpoint q response variables :
  ExecuteOnEndpoint g ctx endpoint q response variables
  = query g ctx endpoint q (apply_variables variables) response.
Proof. by destruct variables. Qed.

Lemma Execute_query g ctx q response variables :
  Execute g ctx q response variables
  = query g ctx "graphql" q (apply_variables variables) response.
Proof. by destruct variables. Qed.

Lemma query_encoded g ctx endpoint q response (vars : option (gmap string V)) r :
  Encode {| Query := q; Variables := vars |} = Ok r →
  query g ctx endpoint q vars response = RawRequest g ctx endpoint r response.
Proof. unfold query. by intros ->. Qed.

Lemma query_request g ctx endpoint q response (vars : option (gmap string V))
    (req : Request) :
  req ∈ requests (trace (query g ctx endpoint q vars response)) →
  ∃ r, Encode {| Query := q; Variables := vars |} = Ok r ∧
       req = new_request g ctx endpoint r.
Proof.
  unfold query. destruct (Encode _) as [r|e]; simpl.
  - intros ->%RawRequest_request. by exists r.
  - intros []%elem_of_nil.
Qed.

(** *** Application-level errors *)

(** C1, for a body that decodes: when the body of a response with status
    200 is read and decodes without a decoding error into a non-empty
    [errors] sequence, [RawRequest] returns the error whose text is made
    of the captured request bytes and the message of the first entry; the
    later entries play no part in it. The same holds through
    [ExecuteOnEndpoint] and [Execute], whose reader holds the encoded
    envelope. *)
Theorem C1_first_error_only g ctx endpoint r response
    (sent : nat) (resp : Response) (data : string) (res : result D)
    (e0 : ErrorItem) (rest : list ErrorItem) :
  NewRequest_error ctx MethodPost (url g +:+ endpoint) = None →
  client g (new_request g ctx endpoint r) = DoResp sent resp →
  RespBody resp = ReadOk data →
  StatusCode resp = StatusOK →
  Unmarshal data {| Data := response; Errors := [] |} = (None, res) →
  Errors res = e0 :: rest →
  error (RawRequest g ctx endpoint r response)
    = Some ("graphql op error: request:[" +:+ Bytes.take sent r
            +:+ "] error:[" +:+ Message e0 +:+ "]")
  ∧ ∀ q variables,
      Encode {| Query := q; Variables := apply_variables variables |} = Ok r →
      error (ExecuteOnEndpoint g ctx endpoint q response variables)
        = Some ("graphql op error: request:[" +:+ Bytes.take sent r
                +:+ "] error:[" +:+ Message e0 +:+ "]")
      ∧ (endpoint = "graphql" →
         error (Execute g ctx q response variables)
           = Some ("graphql op error: request:[" +:+ Bytes.take sent r
                   +:+ "] error:[" +:+ Message e0 +:+ "]")).
Proof.
  intros Hnew Hdo Hbody Hstatus Hdec Herrs.
  assert (error (RawRequest g ctx endpoint r response)
          = Some ("graphql op error: request:[" +:+ Bytes.take sent r
                  +:+ "] error:[" +:+ Message e0 +:+ "]")) as Hraw.
  { unfold RawRequest. rewrite Hnew, Hdo, Hbody, Hstatus, Hdec, Herrs. done. }
  split; [done|]. intros q variables Henc. split.
  - by rewrite ExecuteOnEndpoint_query, (query_encoded _ _ _ _ _ _ r).
  - intros ->. by rewrite Execute_query, (query_encoded _ _ _ _ _ _ r).
Qed.

(** *** The log function *)


(** *** Status errors *)

(** C4, with the body read: when the body of a response was read to the end and its
    status is not 200, [RawRequest] returns the error that names the
    status text, whatever the body holds; the transport call is the only
    call made, so nothing is decoded or logged, and the destination is
    left as it was. *)
Theorem C4_status_error g ctx endpoint r response
    (sent : nat) (resp : Response) (data : string) :
  NewRequest_error ctx MethodPost (url g +:+ endpoint) = None →
  client g (new_request g ctx endpoint r) = DoResp sent resp →
  RespBody resp = ReadOk data →
  StatusCode resp ≠ StatusOK →
  RawRequest g ctx endpoint r response
  = {| error := Some (status_error (Status resp));
       response_after := response;
       trace := [EvDo (new_request g ctx endpoint r)] |}.
Proof.
  intros Hnew Hdo Hbody Hstatus.
  unfold RawRequest. rewrite Hnew, Hdo, Hbody.
  by destruct (Z.eqb_spec (StatusCode resp) StatusOK).
Qed.

(** *** The destination *)

(** C5, by path: the destination is written by the decoding step only.
    When the request cannot be created, the transport fails, the body
    cannot be read or the status is not 200, nothing is decoded and the
    destination is left as it was. Once a body with status 200 is decoded
    the destination holds what the decoder stored, also when the call then
    returns a decoding or an application-level error; the call returns no
    error only if the decoder reported none and stored no [errors] entry. *)
Theorem C5_destination_written_by_decoding g ctx endpoint r response :
  (∀ e, NewRequest_error ctx MethodPost (url g +:+ endpoint) = Some e →
        response_after (RawRequest g ctx endpoint r response) = response
        ∧ decoded (trace (RawRequest g ctx endpoint r response)) = [])
  ∧ (∀ e, client g (new_request g ctx endpoint r) = DoErr e →
          response_after (RawRequest g ctx endpoint r response) = response
          ∧ decoded (trace (RawRequest g ctx endpoint r response)) = [])
  ∧ (∀ sent resp e,
       client g (new_request g ctx endpoint r) = DoResp sent resp →
       RespBody resp = ReadErr e →
       response_after (RawRequest g ctx endpoint r response) = response
       ∧ decoded (trace (RawRequest g ctx endpoint r response)) = [])
  ∧ (∀ sent resp,
       client g (new_request g ctx endpoint r) = DoResp sent resp →
       StatusCode resp ≠ StatusOK →
       response_after (RawRequest g ctx endpoint r response) = response
       ∧ decoded (trace (RawRequest g ctx endpoint r response)) = [])
  ∧ (∀ sent resp data,
       NewRequest_error ctx MethodPost (url g +:+ endpoint) = None →
       client g (new_request g ctx endpoint r) = DoResp sent resp →
       RespBody resp = ReadOk data →
       StatusCode resp = StatusOK →
       response_after (RawRequest g ctx endpoint r response)
       = Data (Unmarshal data {| Data := response; Errors := [] |}).2
       ∧ decoded (trace (RawRequest g ctx endpoint r response)) = [data])
  ∧ (error (RawRequest g ctx endpoint r response) = None →
     ∃ data res,
       Unmarshal data {| Data := response; Errors := [] |} = (None, res) ∧
       Errors res = [] ∧
       response_after (RawRequest g ctx endpoint r response) = Data res).
Proof.
  split; [|split; [|split; [|split; [|split]]]].
  - intros e He. unfold RawRequest. by rewrite He.
  - intros e He. unfold RawRequest. rewrite He. by destruct (NewRequest_error _ _ _).
  - intros sent resp e Hdo He. unfold RawRequest. rewrite Hdo, He.
    by destruct (NewRequest_error _ _ _).
  - intros sent resp Hdo Hstatus. unfold RawRequest. rewrite Hdo.
    destruct (NewRequest_error _ _ _); [done|].
    destruct (RespBody resp); [|done].
    by destruct (Z.eqb_spec (StatusCode resp) StatusOK).
  - intros sent resp data Hnew Hdo Hbody Hstatus.
    unfold RawRequest. rewrite Hnew, Hdo, Hbody, Hstatus. simpl.
    by destruct (Unmarshal _ _) as [[?|] [? [|? ?]]], (logFunc g).
  - unfold RawRequest.
    destruct (NewRequest_error _ _ _); [done|].
    destruct (client g _) as [e|sent resp]; [done|].
    destruct (RespBody resp) as [data|e]; [|done].
    destruct (Z.eqb_spec (StatusCode resp) StatusOK); [|done]. simpl.
    destruct (Unmarshal _ _) as [[?|] [d [|? ?]]] eqn:Hdec; [done..| |done].
    intros _. by exists data, {| Data := d; Errors := [] |}.
Qed.

(** *** The base URL *)

(** C6: for every base URL and every number of separators appended to
    it, and options that leave the URL field alone (as the exported
    options do), [New] stores a URL that ends with exactly one separator,
    the same URL for both spellings, so that requests to an endpoint go
    to the same target. *)
Theorem C6_base_url_normalised (u : string) (n : nat)
    (options : list (GraphQL → GraphQL)) ctx endpoint r :
  Forall (λ option, ∀ gql, url (option gql) = url gql) options →
  ends_with_one "/" (url (New u options))
  ∧ url (New (u +:+ Bytes.repeat "/" n) options) = url (New u options)
  ∧ URL (new_request (New (u +:+ Bytes.repeat "/" n) options) ctx endpoint r)
    = URL (new_request (New u options) ctx endpoint r).
Proof.
  intros Hopts.
  assert (url (New (u +:+ Bytes.repeat "/" n) options) = url (New u options)) as Heq.
  { rewrite !New_url by done. by rewrite TrimRight_repeat. }
  split; [|split; [done|]].
  - rewrite New_url by done. apply ends_with_one_app.
    intros t Ht. by apply TrimRight_ends in Ht.
  - simpl. by rewrite Heq.
Qed.

(** *** Headers *)

(** C7, by canonical name: an entry of the client's header map whose key
    is the only configured key with its canonical form is on every request
    handed to the transport, under that canonical name and with its value
    unchanged. [WithHeader] with a non-empty key stores the pair in the
    map; with the empty key it changes nothing, so that a client built by
    [New] from exported options has no empty key in its map, and a client
    whose map has none sends no empty-named header. *)
Theorem C7_configured_header_sent g ctx endpoint r response (k v : string) :
  headers g !! k = Some v →
  (∀ k' v', headers g !! k' = Some v' →
            CanonicalMIMEHeaderKey k' = CanonicalMIMEHeaderKey k → k' = k) →
  (∀ req, req ∈ requests (trace (RawRequest g ctx endpoint r response)) →
          carries req k v)
  ∧ (∀ key value gql, key ≠ "" →
       headers (WithHeader key value gql) = <[key := value]> (headers gql))
  ∧ (∀ value gql, WithHeader "" value gql = gql)
  ∧ (∀ u options, Forall exported options → headers (New u options) !! "" = None)
  ∧ (headers g !! "" = None →
     ∀ req, req ∈ requests (trace (RawRequest g ctx endpoint r response)) →
            Header req !! "" = None).
Proof.
  intros Hk Huniq. split; [|split; [|split; [|split]]].
  - intros req ->%RawRequest_request. unfold carries. simpl. unfold request_headers.
    apply (overlay_unique _ _ (k, v)).
    + by apply range_headers_elem.
    + intros [k' v'] Hin%range_headers_elem Hc. simpl in *.
      specialize (Huniq k' v' Hin Hc) as ->. congruence.
  - intros key value gql Hkey. unfold WithHeader.
    destruct (String.eqb_spec key ""); done.
  - done.
  - apply New_no_empty_key.
  - intros Hempty req ->%RawRequest_request. simpl. unfold request_headers.
    rewrite overlay_untouched; [done|].
    intros [k' v'] Hin%range_headers_elem Hc%CanonicalMIMEHeaderKey_empty.
    simpl in *. congruence.
Qed.

(** C8: every request handed to the transport has the header map obtained
    by setting Cache-Control, Content-Type and Accept to their fixed
    values and then setting every configured header. Under a name that no
    configured key canonicalises to, the map holds what the fixed block
    holds; under a name that some configured key canonicalises to, it
    holds the value of such a key, the fixed value being replaced. *)
Theorem C8_fixed_then_configured g ctx endpoint r response (req : Request)
    (name : string) :
  req ∈ requests (trace (RawRequest g ctx endpoint r response)) →
  Header req
    = foldl (λ h kv, Header_Set kv.1 kv.2 h)
        (<["Accept" := ["application/json"]]>
           (<["Content-Type" := ["application/json"]]>
              (<["Cache-Control" := ["no-cache"]]> ∅)))
        (range_headers (headers g))
  ∧ ((∀ k v, headers g !! k = Some v → CanonicalMIMEHeaderKey k ≠ name) →
     Header req !! name = fixed_headers !! name)
  ∧ (∀ k v, headers g !! k = Some v → CanonicalMIMEHeaderKey k = name →
       ∃ k' v', headers g !! k' = Some v' ∧
                CanonicalMIMEHeaderKey k' = name ∧
                Header req !! name = Some [v']).
Proof.
  intros ->%RawRequest_request. simpl. unfold request_headers.
  split; [done|split].
  - intros Hno. apply overlay_untouched.
    intros [k v] Hin%range_headers_elem. by apply (Hno k v).
  - intros k v Hk Hc.
    destruct (overlay_replaced fixed_headers (range_headers (headers g)) name (k, v))
      as ([k' v'] & Hin & Hc' & Hl); [by apply range_headers_elem|done|].
    exists k', v'. by apply range_headers_elem in Hin.
Qed.

(** *** The two entry points *)

(** C9: [Execute] is [ExecuteOnEndpoint] at the endpoint name graphql,
    for every query string, destination and mutators. Both hand the same
    envelope to [query], and a request they cause is a POST to the base
    URL followed by the endpoint name. *)
Theorem C9_Execute_is_graphql_endpoint g ctx q response variables :
  Execute g ctx q response variables
    = ExecuteOnEndpoint g ctx "graphql" q response variables
  ∧ (∀ endpoint,
       ExecuteOnEndpoint g ctx endpoint q response variables
       = query g ctx endpoint q (apply_variables variables) response)
  ∧ (∀ endpoint (req : Request),
       req ∈ requests (trace (ExecuteOnEndpoint g ctx endpoint q response variables)) →
       Method req = "POST" ∧ URL req = url g +:+ endpoint).
Proof.
  split; [done|split].
  - intros endpoint. apply ExecuteOnEndpoint_query.
  - intros endpoint req. rewrite ExecuteOnEndpoint_query.
    by intros (b & _ & ->)%query_request.
Qed.

(** *** The envelope *)

Lemma encode_members_Forall2 (kvs : list (string * V)) (texts : list string) :
  encode_members kvs = Ok texts → Forall2 member_of kvs texts.
Proof.
  revert texts. induction kvs as [|[k v] kvs IH]; intros texts; simpl.
  - intros [= <-]. constructor.
  - destruct (encode_value v) as [value|] eqn:Hv; simpl; [|done].
    destruct (encode_members kvs) as [rest|]; simpl; [|done].
    intros [= <-]. constructor; [by exists value|by apply IH].
Qed.

Lemma encode_members_Err (kvs : list (string * V)) (e : string) :
  encode_members kvs = Err e → ∃ kv, kv ∈ kvs ∧ encode_value kv.2 = Err e.
Proof.
  induction kvs as [|[k v] kvs IH]; simpl; [done|].
  destruct (encode_value v) as [s|e'] eqn:Hv; simpl.
  - destruct (encode_members kvs) as [ss|e'']; simpl; [done|].
    intros [= ->]. destruct IH as (kv & Hin & Hkv); [done|].
    exists kv. split; [by right|done].
  - intros [= ->]. exists (k, v). split; [by left|done].
Qed.

Lemma encode_members_Ok (kvs : list (string * V)) :
  (∀ kv, kv ∈ kvs → ∃ s, encode_value kv.2 = Ok s) →
  ∃ ss, encode_members kvs = Ok ss.
Proof.
  induction kvs as [|[k v] kvs IH]; intros Hall; simpl; [by eexists|].
  destruct (Hall (k, v)) as [s Hs]; [by left|]. simpl in Hs. rewrite Hs. simpl.
  destruct IH as [ss ->]; [intros kv ?; apply Hall; by right|].
  simpl. by eexists.
Qed.

Lemma Encode_inv q (vars : option (gmap string V)) r :
  Encode {| Query := q; Variables := vars |} = Ok r →
  ∃ text, encode_map vars = Ok text ∧
          r = envelope_text (encode_string q) text +:+ String Bytes.newline "".
Proof.
  unfold Encode, Marshal. simpl.
  destruct (encode_map vars) as [text|]; simpl; [|done].
  intros [= <-]. by exists text.
Qed.

Lemma envelope_text_newline (query vars : string) :
  ends_with_one Bytes.newline (envelope_text query vars +:+ String Bytes.newline "").
Proof.
  apply ends_with_one_app. intros u. unfold envelope_text.
  rewrite <- !app_assoc. by intros [_ [=]]%app_inj_last.
Qed.

#[local] Instance key_le_total : Total (@key_le V).
Proof. intros a b. unfold key_le. apply (total String.le). Qed.

Lemma sorted_entries_lookup (m : gmap string V) (k : string) (v : V) :
  (k, v) ∈ sorted_entries m ↔ m !! k = Some v.
Proof.
  unfold sorted_entries. rewrite merge_sort_Permutation. apply elem_of_map_to_list.
Qed.

(** Mutators made by [WithVariable], applied in order: the last binding
    of a key is the one the map holds. *)
Lemma WithVariable_unbound (kvs : list (string * V)) (m : gmap string V) (k : string) :
  k ∉ kvs.*1 →
  foldl (λ m mutate, mutate m) m ((λ kv, WithVariable kv.1 kv.2) <$> kvs) !! k = m !! k.
Proof.
  revert m. induction kvs as [|[k' v'] kvs IH]; intros m Hk; simpl; [done|].
  apply not_elem_of_cons in Hk as [Hne Hk]. rewrite IH by done.
  unfold WithVariable. by rewrite lookup_insert_ne.
Qed.

Lemma WithVariable_last (before after : list (string * V)) (m : gmap string V)
    (k : string) (v : V) :
  k ∉ after.*1 →
  foldl (λ m mutate, mutate m) m
    ((λ kv, WithVariable kv.1 kv.2) <$> (before ++ (k, v) :: after)) !! k = Some v.
Proof.
  intros Hk. rewrite fmap_app, foldl_app. simpl.
  rewrite WithVariable_unbound by done.
  unfold WithVariable. by rewrite lookup_insert_eq.
Qed.

(** C2: both entry points hand [query] the variables map the
    specification describes: none without mutators, otherwise the empty
    map with the mutators applied in the order given. For mutators made
    by [WithVariable] the map binds each key to the value of its last
    mutator and binds nothing else. The envelope is serialized and handed
    to [RawRequest], which sends it when the request can be created: its
    variables member is [null] for the absent map, and otherwise an object
    whose members are the entries of the map, each exactly once, ordered
    by key; such an object is produced whenever every bound value can be
    encoded. *)
Theorem C2_variables_applied_in_order g ctx endpoint q response variables :
  ExecuteOnEndpoint g ctx endpoint q response variables
    = query g ctx endpoint q (apply_variables variables) response
  ∧ Execute g ctx q response variables
    = query g ctx "graphql" q (apply_variables variables) response
  ∧ (variables = [] → apply_variables variables = None)
  ∧ (variables ≠ [] →
     apply_variables variables = Some (foldl (λ m mutate, mutate m) ∅ variables))
  ∧ (∀ kvs : list (string * V),
       variables = (λ kv, WithVariable kv.1 kv.2) <$> kvs → kvs ≠ [] →
       ∃ m, apply_variables variables = Some m ∧
            (∀ before k v after,
                kvs = before ++ (k, v) :: after → k ∉ after.*1 → m !! k = Some v) ∧
            (∀ k, k ∉ kvs.*1 → m !! k = None))
  ∧ (∀ req : Request,
       req ∈ requests (trace (ExecuteOnEndpoint g ctx endpoint q response variables)) →
       match apply_variables variables with
       | None =>
           Body req = envelope_text (encode_string q) "null"
                      +:+ String Bytes.newline ""
       | Some m =>
           ∃ members,
             Forall2 member_of (sorted_entries m) members ∧
             Body req = envelope_text (encode_string q)
                          ("{" +:+ Join members "," +:+ "}")
                        +:+ String Bytes.newline ""
       end)
  ∧ (∀ m : gmap string V,
       sorted_entries m ≡ₚ map_to_list m ∧
       Sorted key_le (sorted_entries m) ∧
       ∀ k v, (k, v) ∈ sorted_entries m ↔ m !! k = Some v)
  ∧ (variables = [] →
     ExecuteOnEndpoint g ctx endpoint q response variables
     = RawRequest g ctx endpoint
         (envelope_text (encode_string q) "null" +:+ String Bytes.newline "")
         response
     ∧ Execute g ctx q response variables
       = RawRequest g ctx "graphql"
           (envelope_text (encode_string q) "null" +:+ String Bytes.newline "")
           response)
  ∧ (∀ m members,
       apply_variables variables = Some m →
       encode_members (sorted_entries m) = Ok members →
       Forall2 member_of (sorted_entries m) members
       ∧ ExecuteOnEndpoint g ctx endpoint q response variables
         = RawRequest g ctx endpoint
             (envelope_text (encode_string q) ("{" +:+ Join members "," +:+ "}")
              +:+ String Bytes.newline "")
             response
       ∧ Execute g ctx q response variables
         = RawRequest g ctx "graphql"
             (envelope_text (encode_string q) ("{" +:+ Join members "," +:+ "}")
              +:+ String Bytes.newline "")
             response)
  ∧ (∀ m,
       apply_variables variables = Some m →
       (∀ k v, m !! k = Some v → ∃ text, encode_value v = Ok text) →
       ∃ members, encode_members (sorted_entries m) = Ok members)
  ∧ (∀ endpoint' body,
       NewRequest_error ctx MethodPost (url g +:+ endpoint') = None →
       requests (trace (RawRequest g ctx endpoint' body response))
       = [new_request g ctx endpoint' body]
       ∧ Body (new_request g ctx endpoint' body) = body).
Proof.
  split; [apply ExecuteOnEndpoint_query|].
  split; [apply Execute_query|].
  split; [by intros ->|].
  split; [by destruct variables|].
  split; [|split; [|split; [|split; [|split; [|split]]]]].
  - intros kvs -> Hkvs.
    destruct kvs as [|kv kvs]; [done|].
    eexists. split; [done|]. split.
    + intros before k v after Heq Hk.
      change (foldl (λ m mutate, mutate m) ∅
                ((λ kv, WithVariable kv.1 kv.2) <$> (kv :: kvs)) !! k = Some v).
      rewrite Heq. by apply WithVariable_last.
    + intros k Hk.
      change (foldl (λ m mutate, mutate m) ∅
                ((λ kv, WithVariable kv.1 kv.2) <$> (kv :: kvs)) !! k = None).
      by rewrite WithVariable_unbound.
  - intros req. rewrite ExecuteOnEndpoint_query.
    intros (b & (text & Hmap & ->)%Encode_inv & ->)%query_request. simpl.
    destruct (apply_variables variables) as [m|]; simpl in Hmap.
    + destruct (encode_members (sorted_entries m)) as [members|] eqn:Hms;
        simpl in Hmap; [|done].
      injection Hmap as <-. exists members.
      split; [by apply encode_members_Forall2|done].
    + by injection Hmap as <-.
  - intros m. split; [apply merge_sort_Permutation|].
    split; [apply (Sorted_merge_sort key_le)|].
    apply sorted_entries_lookup.
  - by intros ->.
  - intros m members Hm Hms.
    split; [by apply encode_members_Forall2|].
    rewrite ExecuteOnEndpoint_query, Execute_query, Hm.
    unfold query, Encode, Marshal, encode_map. simpl. by rewrite Hms.
  - intros m _ Hall. apply encode_members_Ok.
    intros [k v] Hin%sorted_entries_lookup. by apply (Hall k v).
  - intros endpoint' body Hnew. by rewrite RawRequest_requests, Hnew.
Qed.

(** C10: the body of every request caused by [ExecuteOnEndpoint] or
    [Execute] is the JSON envelope with its query and variables members
    followed by a newline; the envelope ends with its closing brace, so
    the body ends with exactly one newline. When the envelope can be
    encoded and the request created, each of the two makes such a
    request. *)
Theorem C10_body_is_envelope_and_newline g ctx endpoint q response variables :
  (∀ req : Request,
     req ∈ requests (trace (ExecuteOnEndpoint g ctx endpoint q response variables)) →
     ∃ vars, encode_map (apply_variables variables) = Ok vars ∧
             Body req = envelope_text (encode_string q) vars
                        +:+ String Bytes.newline "" ∧
             ends_with_one Bytes.newline (Body req))
  ∧ (∀ req : Request,
       req ∈ requests (trace (Execute g ctx q response variables)) →
       ∃ vars, encode_map (apply_variables variables) = Ok vars ∧
               Body req = envelope_text (encode_string q) vars
                          +:+ String Bytes.newline "" ∧
               ends_with_one Bytes.newline (Body req))
  ∧ (∀ vars,
       encode_map (apply_variables variables) = Ok vars →
       NewRequest_error ctx MethodPost (url g +:+ endpoint) = None →
       requests (trace (ExecuteOnEndpoint g ctx endpoint q response variables))
       = [new_request g ctx endpoint
            (envelope_text (encode_string q) vars +:+ String Bytes.newline "")])
  ∧ (∀ vars,
       encode_map (apply_variables variables) = Ok vars →
       NewRequest_error ctx MethodPost (url g +:+ "graphql") = None →
       requests (trace (Execute g ctx q response variables))
       = [new_request g ctx "graphql"
            (envelope_text (encode_string q) vars +:+ String Bytes.newline "")]
       ∧ Execute g ctx q response variables
         = RawRequest g ctx "graphql"
             (envelope_text (encode_string q) vars +:+ String Bytes.newline "")
             response).
Proof.
  assert (∀ endpoint' (req : Request),
            req ∈ requests (trace (query g ctx endpoint' q
                                     (apply_variables variables) response)) →
            ∃ vars, encode_map (apply_variables variables) = Ok vars ∧
                    Body req = envelope_text (encode_string q) vars
                               +:+ String Bytes.newline "" ∧
                    ends_with_one Bytes.newline (Body req)) as Hbody.
  { intros endpoint' req (b & (text & Hmap & ->)%Encode_inv & ->)%query_request.
    exists text. split; [done|]. split; [done|]. apply envelope_text_newline. }
  split; [|split; [|split]].
  - intros req. rewrite ExecuteOnEndpoint_query. apply Hbody.
  - intros req. rewrite Execute_query. apply Hbody.
  - intros vars Hmap Hnew. rewrite ExecuteOnEndpoint_query.
    unfold query, Encode, Marshal. simpl. rewrite Hmap. simpl.
    by rewrite RawRequest_requests, Hnew.
  - intros vars Hmap Hnew. rewrite Execute_query.
    unfold query, Encode, Marshal. simpl. rewrite Hmap. simpl.
    by rewrite RawRequest_requests, Hnew.
Qed.

End Calls.

(** * Concrete runs *)

Section Runs.
Import Reference Scenario.

(** The body the package's tests expect for a query without variables. *)
Example Execute_sends_test_body :
  requests (trace (Execute failing () city_query "" []))
  = [new_request failing () "graphql" city_body].
Proof. vm_compute. reflexivity. Qed.

Lemma C1_first_error_only_witness :
  client failing (new_request failing () "graphql" city_body)
    = DoResp (String.length city_body)
        {| StatusCode := 200; Status := "200 OK"; RespBody := ReadOk errors_body |}
  ∧ Unmarshal errors_body {| Data := ""; Errors := [] |}
    = (None, {| Data := "";
                Errors := [{| Message := "boom" |}; {| Message := "bang" |}] |})
  ∧ error (RawRequest failing () "graphql" city_body "")
    = Some ("graphql op error: request:[" +:+ city_body +:+ "] error:[boom]")
  ∧ error (Execute failing () city_query "" [])
    = Some ("graphql op error: request:[" +:+ city_body +:+ "] error:[boom]").
Proof.
  split; [reflexivity|]. split; [vm_compute; reflexivity|].
  pose proof (C1_first_error_only failing () "graphql" city_body ""
                (String.length city_body)
                {| StatusCode := 200; Status := "200 OK";
                   RespBody := ReadOk errors_body |}
                errors_body
                {| Data := "";
                   Errors := [{| Message := "boom" |}; {| Message := "bang" |}] |}
                {| Message := "boom" |} [{| Message := "bang" |}]
                eq_refl eq_refl eq_refl eq_refl eq_refl eq_refl) as [Hraw Hexec].
  split.
  - exact Hraw.
  - exact (proj2 (Hexec city_query [] eq_refl) eq_refl).
Defined.

(** C1 with a body that does not decode: the response has status 200, the
    decoder stores both [errors] entries and reports that the data does
    not fit the destination; the call returns the decoding error, which
    carries the raw response and no request bytes, not the error made of
    the request and the first message. *)
Lemma C1_counterexample :
  client Cases.unfit (new_request Cases.unfit () "graphql" city_body)
    = DoResp (String.length city_body)
        {| StatusCode := 200; Status := "200 OK";
           RespBody := ReadOk Cases.unfit_body |}
  ∧ Unmarshal Cases.unfit_body {| Data := "before"; Errors := [] |}
    = (Some "json: cannot unmarshal number into Go value of type string",
       {| Data := "before";
          Errors := [{| Message := "boom" |}; {| Message := "bang" |}] |})
  ∧ error (RawRequest Cases.unfit () "graphql" city_body "before")
    = Some ("graphql decoding error: json: cannot unmarshal number into Go value of type string response: "
            +:+ Cases.unfit_body)
  ∧ error (RawRequest Cases.unfit () "graphql" city_body "before")
    ≠ Some ("graphql op error: request:[" +:+ city_body +:+ "] error:[boom]").
Proof. repeat split; [vm_compute; reflexivity..|]. vm_compute. discriminate. Qed.

(** The variables of a call, serialized and sent. *)
Lemma C2_variables_applied_in_order_witness :
  apply_variables Cases.rebound
    = Some (<["key1" := VInt 10]> (<["key2" := VString "hello"]> ∅))
  ∧ Execute logging () city_query "" Cases.rebound
    = RawRequest logging () "graphql" Cases.rebound_body ""
  ∧ requests (trace (Execute logging () city_query "" Cases.rebound))
    = [new_request logging () "graphql" Cases.rebound_body]
  ∧ Body (new_request logging () "graphql" Cases.rebound_body) = Cases.rebound_body
  ∧ Execute logging () city_query "" [] = RawRequest logging () "graphql" city_body "".
Proof.
  pose proof (C2_variables_applied_in_order logging () "graphql" city_query ""
                Cases.rebound)
    as (_ & _ & _ & _ & _ & _ & _ & _ & Hsome & _ & Hsent).
  pose proof (C2_variables_applied_in_order logging () "graphql" city_query "" [])
    as (_ & _ & _ & _ & _ & _ & _ & Hnone & _).
  destruct (Hsome (foldl (λ m mutate, mutate m) ∅ Cases.rebound)
              [js "'key1':10"; js "'key2':'hello'"]
              eq_refl ltac:(vm_compute; reflexivity)) as (_ & _ & Hexec).
  destruct (Hsent "graphql" Cases.rebound_body eq_refl) as [Hreqs Hbody].
  split; [apply (f_equal Some); apply map_eq; intros k; vm_compute; reflexivity|].
  split; [exact Hexec|].
  split; [rewrite Hexec; exact Hreqs|].
  split; [exact Hbody|].
  exact (proj2 (Hnone eq_refl)).
Defined.

(** The envelope [Execute] sends, byte for byte. *)
Lemma C10_body_is_envelope_and_newline_witness :
  requests (trace (Execute failing () city_query "" []))
    = [new_request failing () "graphql" city_body]
  ∧ Execute failing () city_query "" [] = RawRequest failing () "graphql" city_body ""
  ∧ String.get 0 city_body = Some "{"%char
  ∧ String.get 1 city_body = Some (ascii_of_nat 34)
  ∧ String.get (String.length city_body - 2) city_body = Some "}"%char
  ∧ String.get (String.length city_body - 1) city_body = Some (ascii_of_nat 10).
Proof.
  split; [|split; [|repeat split; reflexivity]].
  - exact (proj1 (proj2 (proj2 (proj2 (C10_body_is_envelope_and_newline
                                         failing () "graphql" city_query "" [])))
                    "null" eq_refl eq_refl)).
  - exact (proj2 (proj2 (proj2 (proj2 (C10_body_is_envelope_and_newline
                                         failing () "graphql" city_query "" [])))
                    "null" eq_refl eq_refl)).
Defined.



Lemma C4_status_error_witness :
  client unavailable (new_request unavailable () "graphql" city_body)
    = DoResp (String.length city_body)
        {| StatusCode := 500; Status := "500 Internal Server Error";
           RespBody := ReadOk errors_body |}
  ∧ StatusCode {| StatusCode := 500; Status := "500 Internal Server Error";
                  RespBody := ReadOk errors_body |} ≠ StatusOK
  ∧ RawRequest unavailable () "graphql" city_body ""
    = {| error := Some "graphql op error: status code: 500 Internal Server Error";
         response_after := "";
         trace := [EvDo (new_request unavailable () "graphql" city_body)] |}.
Proof.
  split; [reflexivity|]. split; [done|].
  exact (C4_status_error unavailable () "graphql" city_body ""
           (String.length city_body)
           {| StatusCode := 500; Status := "500 Internal Server Error";
              RespBody := ReadOk errors_body |}
           errors_body eq_refl eq_refl eq_refl
           (proj1 (Z.eqb_neq 500 200) eq_refl)).
Defined.

(** C4 without the body read: a response with status 500 whose body
    breaks off while it is read yields the body-read error, which does not
    name the status text. *)
Lemma C4_counterexample :
  client unavailable_broken (new_request unavailable_broken () "graphql" city_body)
    = DoResp (String.length city_body)
        {| StatusCode := 500; Status := "500 Internal Server Error";
           RespBody := ReadErr "unexpected EOF" |}
  ∧ error (RawRequest unavailable_broken () "graphql" city_body "")
    = Some "graphql copy error: unexpected EOF"
  ∧ error (RawRequest unavailable_broken () "graphql" city_body "")
    ≠ Some (status_error "500 Internal Server Error").
Proof. repeat split; [vm_compute; reflexivity..|]. vm_compute. discriminate. Qed.

(** C5 on an error path: the server answers 200 with data and an error,
    the call returns the application-level error, and the destination has
    been overwritten with the data. *)
Lemma C5_counterexample :
  error (RawRequest partial () "graphql" city_body "before")
    = Some (op_error city_body "boom")
  ∧ response_after (RawRequest partial () "graphql" city_body "before") = "Lisbon"
  ∧ response_after (Execute partial () city_query "before" []) = "Lisbon"
  ∧ error (Execute partial () city_query "before" []) = Some (op_error city_body "boom").
Proof. repeat split; vm_compute; reflexivity. Qed.

Lemma C6_base_url_normalised_witness :
  Forall (λ option : GraphQL → GraphQL, ∀ gql, url (option gql) = url gql)
    [WithHeader "X" "Y"; WithLogging (Some "sink")]
  ∧ url (New base [WithHeader "X" "Y"; WithLogging (Some "sink")])
    = "http://localhost:8080/"
  ∧ ends_with_one "/" (url (New base [WithHeader "X" "Y"; WithLogging (Some "sink")]))
  ∧ url (New (base +:+ "//") [WithHeader "X" "Y"; WithLogging (Some "sink")])
    = url (New base [WithHeader "X" "Y"; WithLogging (Some "sink")])
  ∧ URL (new_request (New (base +:+ "//") [WithHeader "X" "Y"; WithLogging (Some "sink")])
           () "graphql" city_body)
    = URL (new_request (New base [WithHeader "X" "Y"; WithLogging (Some "sink")])
             () "graphql" city_body).
Proof.
  assert (Forall (λ option : GraphQL → GraphQL, ∀ gql, url (option gql) = url gql)
            [WithHeader "X" "Y"; WithLogging (Some "sink")]) as Hopts.
  { repeat constructor; intros gql; apply exported_url; constructor. }
  split; [exact Hopts|]. split; [reflexivity|].
  exact (C6_base_url_normalised base 2 _ () "graphql" city_body Hopts).
Defined.

Lemma C7_configured_header_sent_witness :
  headers with_x !! "X" = Some "Y"
  ∧ (∀ k' v', headers with_x !! k' = Some v' →
              CanonicalMIMEHeaderKey k' = CanonicalMIMEHeaderKey "X" → k' = "X")
  ∧ requests (trace (RawRequest with_x () "graphql" city_body ""))
    = [new_request with_x () "graphql" city_body]
  ∧ (∀ req, req ∈ requests (trace (RawRequest with_x () "graphql" city_body "")) →
            carries req "X" "Y").
Proof.
  assert (∀ k' v', headers with_x !! k' = Some v' →
                   CanonicalMIMEHeaderKey k' = CanonicalMIMEHeaderKey "X" → k' = "X")
    as Huniq.
  { intros k' v' Hk' _.
    change (headers with_x) with (<["X" := "Y"]> (∅ : gmap string string)) in Hk'.
    apply lookup_insert_Some in Hk' as [[<- _]|[_ Hk']]; [done|].
    by rewrite lookup_empty in Hk'. }
  split; [reflexivity|]. split; [exact Huniq|]. split; [reflexivity|].
  exact (proj1 (C7_configured_header_sent with_x () "graphql" city_body ""
                  "X" "Y" eq_refl Huniq)).
Defined.

(** C7 with two spellings of one header name: both pairs are configured,
    one entry reaches the request; the pair under x-a is on it neither as
    written nor under its canonical name, where [Header.Get] finds the
    other value. *)
Lemma C7_counterexample :
  headers with_two_spellings !! "x-a" = Some "1"
  ∧ headers with_two_spellings !! "X-A" = Some "2"
  ∧ requests (trace (RawRequest with_two_spellings () "graphql" city_body ""))
    = [new_request with_two_spellings () "graphql" city_body]
  ∧ Header (new_request with_two_spellings () "graphql" city_body) !! "x-a" = None
  ∧ Header (new_request with_two_spellings () "graphql" city_body) !! "X-A"
    = Some ["2"]
  ∧ Header_Get (Header (new_request with_two_spellings () "graphql" city_body)) "x-a"
    = "2"
  ∧ ¬ carries (new_request with_two_spellings () "graphql" city_body) "x-a" "1".
Proof. repeat split; [vm_compute; reflexivity..|]. vm_compute. discriminate. Qed.

Lemma C8_fixed_then_configured_witness :
  new_request with_content_type () "graphql" city_body
    ∈ requests (trace (RawRequest with_content_type () "graphql" city_body ""))
  ∧ headers with_content_type !! "content-type" = Some "application/graphql"
  ∧ Header (new_request with_content_type () "graphql" city_body) !! "Accept"
    = Some ["application/json"]
  ∧ ∃ k' v', headers with_content_type !! k' = Some v'
             ∧ CanonicalMIMEHeaderKey k' = "Content-Type"
             ∧ Header (new_request with_content_type () "graphql" city_body)
                 !! "Content-Type" = Some [v'].
Proof.
  assert (new_request with_content_type () "graphql" city_body
            ∈ requests (trace (RawRequest with_content_type () "graphql" city_body "")))
    as Hreq.
  { rewrite RawRequest_requests. apply list_elem_of_singleton. reflexivity. }
  split; [exact Hreq|]. split; [reflexivity|]. split; [vm_compute; reflexivity|].
  exact (proj2 (proj2 (C8_fixed_then_configured with_content_type () "graphql"
                         city_body "" _ "Content-Type" Hreq))
           "content-type" "application/graphql" eq_refl eq_refl).
Defined.

(** The overlay on the same client, computed. *)
Example content_type_replaced :
  Header (new_request with_content_type () "graphql" city_body) !! "Content-Type"
  = Some ["application/graphql"].
Proof. vm_compute. reflexivity. Qed.

(** Variables as in the package's tests, the last binding of a key winning. *)
Example Execute_sends_variables :
  Body <$> requests (trace (Execute logging () city_query ""
                              [WithVariable "key2" (VString "hello");
                               WithVariable "key1" (VInt 7);
                               WithVariable "key1" (VInt 10)]))
  = [js "{'query':'query { getCity(id: \'0x01\') { id name lat lng } }','variables':{'key1':10,'key2':'hello'}}"
     +:+ String Bytes.newline ""].
Proof. vm_compute. reflexivity. Qed.

(** A value the encoder refuses: nothing is sent. *)
Example Execute_encoding_error :
  Execute logging () city_query "" [WithVariable "c" VChan]
  = {| error := Some "graphql encoding error: json: unsupported type: chan int";
       response_after := ""; trace := [] |}.
Proof. vm_compute. reflexivity. Qed.

(** Data decoded into the destination, and logged. *)
Example Execute_success :
  Execute logging () city_query "" []
  = {| error := None; response_after := "Lisbon";
       trace := [EvDo (new_request logging () "graphql" city_body);
                 EvLog "sink" (log_line city_body data_body);
                 EvUnmarshal data_body] |}.
Proof. vm_compute. reflexivity. Qed.

End Runs.

(** * Further properties *)

(** ** Strings and header names, continued *)

Section NormalForms.
Implicit Types (h : gmap string (list string)) (l : list (string * string)).

(** A string that does not end with [c] is left whole. *)
Lemma TrimRight_fixed (s : string) (c : ascii) :
  (∀ t, s ≠ t +:+ String c "") → TrimRight s (String c "") = s.
Proof.
  induction s as [|a s IH]; intros Hs; simpl; [done|].
  destruct s as [|b s].
  - simpl. destruct (Ascii.eqb_spec c a) as [->|]; [|done].
    by destruct (Hs "").
  - rewrite IH; [done|].
    intros t Ht. apply (Hs (String a t)). by rewrite app_cons, <- Ht.
Qed.

Lemma TrimRight_idempotent (s : string) (c : ascii) :
  TrimRight (TrimRight s (String c "")) (String c "") = TrimRight s (String c "").
Proof.
  apply TrimRight_fixed. intros t Ht. apply TrimRight_ends in Ht.
  simpl in Ht. by rewrite Ascii.eqb_refl in Ht.
Qed.

(** One step of [canonicalize]. *)
Definition canonical_byte (upper : bool) (c : ascii) : ascii :=
  if upper && Bytes.isLower c then Bytes.toUpper c
  else if negb upper && Bytes.isUpper c then Bytes.toLower c
  else c.

Lemma canonical_byte_idempotent (upper : bool) (c : ascii) :
  canonical_byte upper (canonical_byte upper c) = canonical_byte upper c.
Proof. by destruct upper, c as [[] [] [] [] [] [] [] []]. Qed.

Lemma canonical_byte_valid (upper : bool) (c : ascii) :
  validHeaderFieldByte (canonical_byte upper c) = validHeaderFieldByte c.
Proof. by destruct upper, c as [[] [] [] [] [] [] [] []]. Qed.

Lemma canonicalize_idempotent (upper : bool) (s : string) :
  canonicalize upper (canonicalize upper s) = canonicalize upper s.
Proof.
  revert upper. induction s as [|c s IH]; intros upper; [done|].
  change (canonicalize upper (String c s))
    with (String (canonical_byte upper c)
            (canonicalize (Ascii.eqb (canonical_byte upper c) "-") s)).
  change (canonicalize upper (String ?x ?y))
    with (String (canonical_byte upper x)
            (canonicalize (Ascii.eqb (canonical_byte upper x) "-") y)).
  by rewrite canonical_byte_idempotent, IH.
Qed.

Lemma canonicalize_valid (upper : bool) (s : string) :
  Bytes.all validHeaderFieldByte (canonicalize upper s)
  = Bytes.all validHeaderFieldByte s.
Proof.
  revert upper. induction s as [|c s IH]; intros upper; [done|].
  change (canonicalize upper (String c s))
    with (String (canonical_byte upper c)
            (canonicalize (Ascii.eqb (canonical_byte upper c) "-") s)).
  simpl. by rewrite canonical_byte_valid, IH.
Qed.

Lemma CanonicalMIMEHeaderKey_idempotent (key : string) :
  CanonicalMIMEHeaderKey (CanonicalMIMEHeaderKey key) = CanonicalMIMEHeaderKey key.
Proof.
  unfold CanonicalMIMEHeaderKey.
  destruct (Bytes.all validHeaderFieldByte key) eqn:Hkey.
  - by rewrite canonicalize_valid, Hkey, canonicalize_idempotent.
  - by rewrite Hkey.
Qed.

(** Where an entry of an overlaid map comes from. *)
Lemma overlay_origin h l (name : string) (vs : list string) :
  foldl (λ h kv, Header_Set kv.1 kv.2 h) h l !! name = Some vs →
  h !! name = Some vs
  ∨ ∃ kv, kv ∈ l ∧ CanonicalMIMEHeaderKey kv.1 = name ∧ vs = [kv.2].
Proof.
  revert h. induction l as [|x l IH]; intros h; simpl; [by left|].
  intros [Hh|(kv & Hin & Hc & ->)]%IH.
  - rewrite Header_Set_lookup in Hh. case_decide as Hx; [|by left].
    injection Hh as <-. right. exists x. split; [by left|done].
  - right. exists kv. split; [by right|done].
Qed.

End NormalForms.

(** ** Calls, path by path *)

Section Paths.
Context `{PKG : Package}.
Context {V : Type} `{ENC : JSONEncoder V}.
Context {D : Type} `{DEC : Unmarshaler D}.

Implicit Types (g : GraphQL) (ctx : Ctx) (endpoint r q : string) (response : D).
Implicit Types (variables : list (gmap string V → gmap string V)).

Lemma query_requests_length g ctx endpoint q response (vars : option (gmap string V)) :
  (length (requests (trace (query g ctx endpoint q vars response))) ≤ 1)%nat.
Proof.
  unfold query. destruct (Encode _); simpl; [|lia].
  rewrite RawRequest_requests. destruct (NewRequest_error _ _ _); simpl; lia.
Qed.

(** X1: a call makes at most one round trip, and never retries. If the
    request cannot be created [RawRequest] hands nothing to the transport;
    otherwise it hands it one request: a POST to the base URL followed by
    the endpoint name, under the caller's context, whose body is the
    caller's reader content as it is. [Execute] and [ExecuteOnEndpoint]
    make at most one request too. *)
Theorem X1_one_round_trip g ctx endpoint r q response variables :
  (match NewRequest_error ctx MethodPost (url g +:+ endpoint) with
   | Some _ => requests (trace (RawRequest g ctx endpoint r response)) = []
   | None =>
       requests (trace (RawRequest g ctx endpoint r response))
       = [{| ReqCtx := ctx; Method := "POST"; URL := url g +:+ endpoint;
             Header := request_headers g; Body := r |}]
   end)
  ∧ (length (requests (trace (ExecuteOnEndpoint g ctx endpoint q response variables)))
     ≤ 1)%nat
  ∧ (length (requests (trace (Execute g ctx q response variables))) ≤ 1)%nat.
Proof.
  split; [|split].
  - rewrite RawRequest_requests. by destruct (NewRequest_error _ _ _).
  - rewrite ExecuteOnEndpoint_query. apply query_requests_length.
  - rewrite Execute_query. apply query_requests_length.
Qed.

(** X2: the calls of one [RawRequest] come in a fixed order: the
    transport, then the log function if one is configured, then the
    decoder. A run stops after none, one or all of them: nothing is logged
    or decoded without a transport call before it, the log function is
    called at most once and never after the decoder, and the decoder is
    called at most once. *)
Theorem X2_calls_in_order g ctx endpoint r response :
  trace (RawRequest g ctx endpoint r response) = []
  ∨ trace (RawRequest g ctx endpoint r response) = [EvDo (new_request g ctx endpoint r)]
  ∨ (∃ data,
       logFunc g = None ∧
       trace (RawRequest g ctx endpoint r response)
       = [EvDo (new_request g ctx endpoint r); EvUnmarshal data])
  ∨ (∃ f sent data,
       logFunc g = Some f ∧
       trace (RawRequest g ctx endpoint r response)
       = [EvDo (new_request g ctx endpoint r);
          EvLog f (log_line (Bytes.take sent r) data);
          EvUnmarshal data]).
Proof.
  unfold RawRequest.
  destruct (NewRequest_error _ _ _); [by left|].
  destruct (client g _) as [e|sent resp]; [by right; left|].
  destruct (RespBody resp) as [data|e]; [|by right; left].
  destruct (Z.eqb_spec (StatusCode resp) StatusOK); [|by right; left]. simpl.
  destruct (logFunc g) as [f|] eqn:Hlog.
  - right; right; right. exists f, sent, data. split; [done|].
    by destruct (Unmarshal _ _) as [[?|] [? [|? ?]]].
  - right; right; left. exists data. split; [done|].
    by destruct (Unmarshal _ _) as [[?|] [? [|? ?]]].
Qed.

(** X3: failures before a response is complete. A request that cannot be
    created yields the create-request error and no call at all. A failing
    transport yields the request error with the transport's message after
    exactly one transport call. A response whose body cannot be read
    yields the copy error whatever its status is, 200 included. In all
    three cases nothing is logged or decoded and the destination is left
    as it was. *)
Theorem X3_failures_before_the_body g ctx endpoint r response :
  (∀ e, NewRequest_error ctx MethodPost (url g +:+ endpoint) = Some e →
        RawRequest g ctx endpoint r response
        = {| error := Some ("graphql create request error: " +:+ e);
             response_after := response; trace := [] |})
  ∧ (∀ e, NewRequest_error ctx MethodPost (url g +:+ endpoint) = None →
          client g (new_request g ctx endpoint r) = DoErr e →
          RawRequest g ctx endpoint r response
          = {| error := Some ("graphql request error: " +:+ e);
               response_after := response;
               trace := [EvDo (new_request g ctx endpoint r)] |})
  ∧ (∀ sent resp e,
       NewRequest_error ctx MethodPost (url g +:+ endpoint) = None →
       client g (new_request g ctx endpoint r) = DoResp sent resp →
       RespBody resp = ReadErr e →
       RawRequest g ctx endpoint r response
       = {| error := Some ("graphql copy error: " +:+ e);
            response_after := response;
            trace := [EvDo (new_request g ctx endpoint r)] |}).
Proof.
  split; [|split].
  - intros e Hnew. unfold RawRequest. by rewrite Hnew.
  - intros e Hnew Hdo. unfold RawRequest. by rewrite Hnew, Hdo.
  - intros sent resp e Hnew Hdo Hbody. unfold RawRequest.
    by rewrite Hnew, Hdo, Hbody.
Qed.

(** X4: a decoding error comes first. When the body of a 200 response
    was read and the decoder reports an error, [RawRequest] returns the
    decoding error, which quotes the decoder's message and the raw
    response bytes, even if the decoder has stored [errors] entries; the
    destination holds what the decoder left in it, and the log function,
    if configured, has been called before. *)
Theorem X4_decoding_error_first g ctx endpoint r response
    (sent : nat) (resp : Response) (data e : string) (res : result D) :
  NewRequest_error ctx MethodPost (url g +:+ endpoint) = None →
  client g (new_request g ctx endpoint r) = DoResp sent resp →
  RespBody resp = ReadOk data →
  StatusCode resp = StatusOK →
  Unmarshal data {| Data := response; Errors := [] |} = (Some e, res) →
  error (RawRequest g ctx endpoint r response)
    = Some ("graphql decoding error: " +:+ e +:+ " response: " +:+ data)
  ∧ response_after (RawRequest g ctx endpoint r response) = Data res
  ∧ decoded (trace (RawRequest g ctx endpoint r response)) = [data]
  ∧ log_calls (trace (RawRequest g ctx endpoint r response))
    = match logFunc g with
      | Some f => [(f, log_line (Bytes.take sent r) data)]
      | None => []
      end.
Proof.
  intros Hnew Hdo Hbody Hstatus Hdec.
  unfold RawRequest. rewrite Hnew, Hdo, Hbody, Hstatus, Hdec. simpl.
  by destruct (logFunc g).
Qed.

(** X5: [RawRequest] returns no error exactly when the request was
    created, the transport returned a response with status 200 whose body
    was read, and the decoder reported no error and stored no [errors]
    entry. *)
Theorem X5_success_exactly g ctx endpoint r response :
  error (RawRequest g ctx endpoint r response) = None
  ↔ ∃ sent resp data res,
      NewRequest_error ctx MethodPost (url g +:+ endpoint) = None ∧
      client g (new_request g ctx endpoint r) = DoResp sent resp ∧
      RespBody resp = ReadOk data ∧
      StatusCode resp = StatusOK ∧
      Unmarshal data {| Data := response; Errors := [] |} = (None, res) ∧
      Errors res = [].
Proof.
  split.
  - unfold RawRequest.
    destruct (NewRequest_error _ _ _) eqn:Hnew; [done|].
    destruct (client g _) as [e|sent resp] eqn:Hdo; [done|].
    destruct (RespBody resp) as [data|e] eqn:Hbody; [|done].
    destruct (Z.eqb_spec (StatusCode resp) StatusOK) as [Hstatus|]; [|done]. simpl.
    destruct (Unmarshal _ _) as [[?|] [d [|? ?]]] eqn:Hdec; [done..| |done].
    intros _. by exists sent, resp, data, {| Data := d; Errors := [] |}.
  - intros (sent & resp & data & res & Hnew & Hdo & Hbody & Hstatus & Hdec & Herrs).
    unfold RawRequest. by rewrite Hnew, Hdo, Hbody, Hstatus, Hdec, Herrs.
Qed.

End Paths.

(** ** Configuration *)

Section Configuration.
Context `{PKG : Package}.

Implicit Types (gql : GraphQL) (options : list (GraphQL → GraphQL)).

Lemma foldl_options_field {A : Type} (field : GraphQL → A) options gql :
  Forall (λ option, ∀ gql, field (option gql) = field gql) options →
  field (foldl (λ gql option, option gql) gql options) = field gql.
Proof.
  revert gql. induction options as [|o options IH]; intros gql Hall; simpl; [done|].
  apply Forall_cons in Hall as [Ho Hall]. by rewrite IH, Ho.
Qed.

Lemma New_app (u : string) (before after : list (GraphQL → GraphQL)) :
  New u (before ++ after) = foldl (λ gql option, option gql) (New u before) after.
Proof. unfold New. by rewrite foldl_app. Qed.

Lemma WithHeader_other (k key value : string) gql :
  key ≠ k → headers (WithHeader key value gql) !! k = headers gql !! k.
Proof.
  intros Hk. unfold WithHeader. destruct (negb _); [|done].
  simpl. by rewrite lookup_insert_ne.
Qed.

(** X7: options are applied in the order given, and the last one that
    sets the transport, or the log function, decides it; options that set
    neither leave the package's default transport and no log function. *)
Theorem X7_last_option_wins (u : string) options :
  (Forall (λ option, ∀ gql, client (option gql) = client gql) options →
   client (New u options) = defaultClient)
  ∧ (Forall (λ option, ∀ gql, logFunc (option gql) = logFunc gql) options →
     logFunc (New u options) = None)
  ∧ (∀ before c after,
       options = before ++ WithClient c :: after →
       Forall (λ option, ∀ gql, client (option gql) = client gql) after →
       client (New u options) = c)
  ∧ (∀ before f after,
       options = before ++ WithLogging f :: after →
       Forall (λ option, ∀ gql, logFunc (option gql) = logFunc gql) after →
       logFunc (New u options) = f).
Proof.
  split; [|split; [|split]].
  - intros Hall. unfold New. by rewrite (foldl_options_field client).
  - intros Hall. unfold New. by rewrite (foldl_options_field logFunc).
  - intros before c after -> Hall.
    rewrite New_app. simpl. by rewrite (foldl_options_field client).
  - intros before f after -> Hall.
    rewrite New_app. simpl. by rewrite (foldl_options_field logFunc).
Qed.

(** X8: the header map [New] builds. A key holds the value of the last
    [WithHeader] for it when that key is not empty and no later option
    touches it; a key no option touches is absent. *)
Theorem X8_header_map_of_New (u : string) options (k : string) :
  (Forall (λ option, ∀ gql, headers (option gql) !! k = headers gql !! k) options →
   headers (New u options) !! k = None)
  ∧ (∀ before v after,
       options = before ++ WithHeader k v :: after →
       k ≠ "" →
       Forall (λ option, ∀ gql, headers (option gql) !! k = headers gql !! k) after →
       headers (New u options) !! k = Some v).
Proof.
  split.
  - intros Hall. unfold New.
    by rewrite (foldl_options_field (λ gql, headers gql !! k)).
  - intros before v after -> Hk Hall. rewrite New_app. simpl.
    rewrite (foldl_options_field (λ gql, headers gql !! k)) by done.
    unfold WithHeader. destruct (String.eqb_spec k ""); [done|].
    simpl. by rewrite lookup_insert_eq.
Qed.

(** X9: how options compose. Options for different fields, and
    [WithHeader] for different keys, commute; of two options for the same
    field or the same header key the later one stands. *)
Theorem X9_options_compose gql (c c' : Client) (f f' : option LogFunc)
    (k k' v v' : string) :
  WithClient c (WithLogging f gql) = WithLogging f (WithClient c gql)
  ∧ WithClient c (WithHeader k v gql) = WithHeader k v (WithClient c gql)
  ∧ WithLogging f (WithHeader k v gql) = WithHeader k v (WithLogging f gql)
  ∧ (k ≠ k' →
     WithHeader k v (WithHeader k' v' gql) = WithHeader k' v' (WithHeader k v gql))
  ∧ WithHeader k v' (WithHeader k v gql) = WithHeader k v' gql
  ∧ WithClient c' (WithClient c gql) = WithClient c' gql
  ∧ WithLogging f' (WithLogging f gql) = WithLogging f' gql.
Proof.
  unfold WithClient, WithLogging, WithHeader.
  repeat split; try by destruct (negb _).
  - intros Hk. destruct (negb (String.eqb k "")), (negb (String.eqb k' "")); simpl;
      try done.
    by rewrite insert_insert_ne.
  - destruct (negb (String.eqb k "")); simpl; [|done].
    by rewrite insert_insert_eq.
Qed.

(** X10: normalising the base URL is idempotent. The URL [New] stores,
    given back to [New], is stored unchanged; a URL that already ends with
    exactly one separator is stored as it is, and one without a trailing
    separator gets one appended. Options are taken to leave the URL
    alone, as the exported ones do. *)
Theorem X10_url_normal_form (u : string) options options' :
  Forall (λ option, ∀ gql, url (option gql) = url gql) options →
  Forall (λ option, ∀ gql, url (option gql) = url gql) options' →
  url (New (url (New u options)) options') = url (New u options)
  ∧ ((∀ t, u ≠ t +:+ "/") → url (New u options) = u +:+ "/")
  ∧ (∀ t, u = t +:+ "/" → (∀ t', t ≠ t' +:+ "/") → url (New u options) = u).
Proof.
  intros Hopts Hopts'. rewrite !New_url by done.
  assert (∀ s, TrimRight (s +:+ "/") "/" = TrimRight s "/") as Hsnoc.
  { intros s. apply (TrimRight_repeat s "/" 1). }
  split; [|split].
  - by rewrite Hsnoc, TrimRight_idempotent.
  - intros Hu. by rewrite TrimRight_fixed.
  - intros t -> Ht. by rewrite Hsnoc, TrimRight_fixed.
Qed.

End Configuration.

(** ** Requests *)

Section Requests.
Context `{PKG : Package}.
Context {V : Type} `{ENC : JSONEncoder V}.
Context {D : Type} `{DEC : Unmarshaler D}.

Implicit Types (g : GraphQL) (ctx : Ctx) (endpoint r q : string) (response : D).
Implicit Types (variables : list (gmap string V → gmap string V)).

(** Bindings with distinct keys, applied in any order, give one map. *)
Lemma WithVariable_lookup (kvs : list (string * V)) (k : string) (v : V) :
  NoDup kvs.*1 →
  foldl (λ m mutate, mutate m) ∅ ((λ kv, WithVariable kv.1 kv.2) <$> kvs) !! k = Some v
  ↔ (k, v) ∈ kvs.
Proof.
  intros Hnd. split.
  - intros Hk. destruct (decide (k ∈ kvs.*1)) as [Hin|Hnot].
    + apply list_elem_of_fmap in Hin as ([k' v'] & -> & Hin). simpl in *.
      destruct (list_elem_of_split _ _ Hin) as (before & after & ->).
      rewrite WithVariable_last in Hk.
      * by injection Hk as ->.
      * rewrite fmap_app, fmap_cons in Hnd.
        apply NoDup_app in Hnd as (_ & _ & Hnd). by apply NoDup_cons in Hnd as [? _].
    + rewrite WithVariable_unbound in Hk by done. by rewrite lookup_empty in Hk.
  - intros Hin. destruct (list_elem_of_split _ _ Hin) as (before & after & ->).
    apply WithVariable_last.
    rewrite fmap_app, fmap_cons in Hnd.
    apply NoDup_app in Hnd as (_ & _ & Hnd). by apply NoDup_cons in Hnd as [? _].
Qed.

Lemma apply_variables_Permutation (kvs kvs' : list (string * V)) :
  NoDup kvs.*1 → kvs ≡ₚ kvs' →
  apply_variables ((λ kv, WithVariable kv.1 kv.2) <$> kvs)
  = apply_variables ((λ kv, WithVariable kv.1 kv.2) <$> kvs').
Proof.
  intros Hnd Hperm.
  assert (NoDup kvs'.*1) as Hnd' by by rewrite <- Hperm.
  destruct kvs as [|kv kvs], kvs' as [|kv' kvs'].
  - done.
  - by apply Permutation_nil_l in Hperm.
  - by apply Permutation_nil_r in Hperm.
  - change (Some (foldl (λ m mutate, mutate m) ∅
                    ((λ kv, WithVariable kv.1 kv.2) <$> kv :: kvs))
            = Some (foldl (λ m mutate, mutate m) ∅
                      ((λ kv, WithVariable kv.1 kv.2) <$> kv' :: kvs'))).
    f_equal. apply map_eq. intros k. apply option_eq. intros v.
    rewrite !WithVariable_lookup by done. by rewrite Hperm.
Qed.

(** X12: bindings for distinct keys may be given in any order: the two
    calls have the same outcome, down to the bytes sent, because the map
    they build is the same and its entries are written in key order. *)
Theorem X12_binding_order_irrelevant g ctx endpoint q response
    (kvs kvs' : list (string * V)) :
  NoDup kvs.*1 →
  kvs ≡ₚ kvs' →
  ExecuteOnEndpoint g ctx endpoint q response ((λ kv, WithVariable kv.1 kv.2) <$> kvs)
  = ExecuteOnEndpoint g ctx endpoint q response ((λ kv, WithVariable kv.1 kv.2) <$> kvs')
  ∧ Execute g ctx q response ((λ kv, WithVariable kv.1 kv.2) <$> kvs)
    = Execute g ctx q response ((λ kv, WithVariable kv.1 kv.2) <$> kvs').
Proof.
  intros Hnd Hperm.
  rewrite !ExecuteOnEndpoint_query, !Execute_query.
  by rewrite (apply_variables_Permutation kvs kvs').
Qed.

(** X13: encoding decides whether anything is sent. Without mutators the
    envelope is always encoded, with [null] for the variables, and the
    call is [RawRequest] on those bytes. With a variables map, if every
    bound value can be encoded the call is [RawRequest] on the encoded
    envelope; if some bound value cannot, the call returns the encoding
    error with the message of such a value, calls nothing and leaves the
    destination as it was. *)
Theorem X13_encoding_decides g ctx endpoint q response variables :
  (variables = [] →
   ExecuteOnEndpoint g ctx endpoint q response variables
   = RawRequest g ctx endpoint
       (envelope_text (encode_string q) "null" +:+ String Bytes.newline "") response)
  ∧ (∀ m, apply_variables variables = Some m →
       ((∀ k v, m !! k = Some v → ∃ s, encode_value v = Ok s) →
        ∃ b, Encode {| Query := q; Variables := Some m |} = Ok b ∧
             ExecuteOnEndpoint g ctx endpoint q response variables
             = RawRequest g ctx endpoint b response)
       ∧ (∀ k v e, m !! k = Some v → encode_value v = Err e →
          ∃ k' v' e',
            m !! k' = Some v' ∧ encode_value v' = Err e' ∧
            ExecuteOnEndpoint g ctx endpoint q response variables
            = {| error := Some ("graphql encoding error: " +:+ e');
                 response_after := response; trace := [] |})).
Proof.
  split.
  - by intros ->.
  - intros m Hm. rewrite ExecuteOnEndpoint_query, Hm. split.
    + intros Hall.
      destruct (encode_members_Ok (sorted_entries m)) as [ss Hss].
      { intros [k v] Hin%sorted_entries_lookup. by apply (Hall k v). }
      unfold query, Encode, Marshal, encode_map. simpl. rewrite Hss. simpl.
      by eexists.
    + intros k v e Hk He.
      destruct (encode_members (sorted_entries m)) as [ss|e'] eqn:Hms.
      * apply encode_members_Forall2 in Hms.
        apply sorted_entries_lookup in Hk.
        apply list_elem_of_lookup_1 in Hk as [i Hi].
        destruct (Forall2_lookup_l _ _ _ _ _ Hms Hi) as (text & _ & s & Hs & _).
        simpl in Hs. congruence.
      * destruct (encode_members_Err _ _ Hms) as ([k' v'] & Hin & Hv').
        exists k', v', e'. split; [by apply sorted_entries_lookup|]. split; [done|].
        unfold query, Encode, Marshal, encode_map. simpl. by rewrite Hms.
Qed.

(** X14: the headers of every request. The three fixed names are always
    present. Every entry has exactly one value, stands under a canonical
    name, and is either a fixed entry or the value of a configured key
    with that canonical form: nothing else is sent. *)
Theorem X14_request_headers g ctx endpoint r response (req : Request) :
  req ∈ requests (trace (RawRequest g ctx endpoint r response)) →
  (is_Some (Header req !! "Cache-Control")
   ∧ is_Some (Header req !! "Content-Type")
   ∧ is_Some (Header req !! "Accept"))
  ∧ (∀ name vs,
       Header req !! name = Some vs →
       CanonicalMIMEHeaderKey name = name
       ∧ ∃ v, vs = [v]
              ∧ (fixed_headers !! name = Some [v]
                 ∨ ∃ k, headers g !! k = Some v ∧ CanonicalMIMEHeaderKey k = name)).
Proof.
  intros ->%RawRequest_request. simpl. unfold request_headers.
  assert (∀ name, is_Some (fixed_headers !! name) →
            is_Some (foldl (λ h kv, Header_Set kv.1 kv.2 h) fixed_headers
                       (range_headers (headers g)) !! name)) as Hfixed.
  { intros name Hname.
    destruct (decide (Exists (λ kv, CanonicalMIMEHeaderKey kv.1 = name)
                        (range_headers (headers g)))) as [Hex|Hno].
    - apply Exists_exists in Hex as (kv & Hin & Hkv).
      destruct (overlay_replaced fixed_headers _ name kv Hin Hkv) as (kv' & _ & _ & ->).
      by eexists.
    - rewrite overlay_untouched; [done|].
      intros kv Hin Hkv. apply Hno, Exists_exists. eauto. }
  split.
  - repeat split; apply Hfixed; by eexists.
  - intros name vs [Hfix|([k v] & Hin & Hc & ->)]%overlay_origin.
    + unfold fixed_headers in Hfix. rewrite !Header_Set_lookup in Hfix.
      repeat case_decide; simplify_eq; try (by rewrite lookup_empty in Hfix);
        (split; [done|]; eexists; split; [done|]; left;
         unfold fixed_headers; rewrite !Header_Set_lookup;
         repeat case_decide; done).
    + simpl in *. subst name. split; [apply CanonicalMIMEHeaderKey_idempotent|].
      exists v. split; [done|]. right. exists k.
      split; [by apply range_headers_elem in Hin|done].
Qed.

(** X15: an empty map is not an absent one. When mutators are given but
    leave the map empty, the variables member is written as an empty
    object, not as [null], and the call is [RawRequest] on those bytes. *)
Theorem X15_empty_map_is_not_null g ctx endpoint q response variables :
  variables ≠ [] →
  foldl (λ m mutate, mutate m) ∅ variables = ∅ →
  ExecuteOnEndpoint g ctx endpoint q response variables
  = RawRequest g ctx endpoint
      (envelope_text (encode_string q) "{}" +:+ String Bytes.newline "") response
  ∧ Encode {| Query := q; Variables := None |}
    ≠ Encode {| Query := q; Variables := apply_variables variables |}.
Proof.
  intros Hne Hempty.
  assert (apply_variables variables = Some ∅) as Hvars.
  { destruct variables; [done|]. unfold apply_variables. by rewrite Hempty. }
  rewrite ExecuteOnEndpoint_query, Hvars.
  assert (Encode {| Query := q; Variables := Some ∅ |}
          = Ok (envelope_text (encode_string q) "{}" +:+ String Bytes.newline ""))
    as Henc.
  { unfold Encode, Marshal, encode_map, sorted_entries. simpl.
    by rewrite map_to_list_empty. }
  split.
  - unfold query. by rewrite Henc.
  - rewrite Henc. unfold Encode, Marshal. simpl. intros [= H].
    unfold envelope_text in H. rewrite <- !app_assoc in H.
    apply app_inj_last in H as [H _]. apply app_inj_last in H as [H _].
    change "null" with ("nul" +:+ "l") in H. rewrite <- !app_assoc in H.
    change "{}" with ("{" +:+ "}") in H. rewrite <- !app_assoc in H.
    by apply app_inj_last in H as [_ [=]].
Qed.

End Requests.

(** * Further runs *)

Section FurtherRuns.
Import Reference Scenario Cases.

Lemma X3_failures_before_the_body_witness :
  NewRequest_error () MethodPost (url misaddressed +:+ "graphql")
    = Some "net/url: invalid control character in URL"
  ∧ RawRequest misaddressed () "graphql" city_body "before"
    = {| error := Some "graphql create request error: net/url: invalid control character in URL";
         response_after := "before"; trace := [] |}
  ∧ client offline (new_request offline () "graphql" city_body)
    = DoErr "dial tcp: connection refused"
  ∧ RawRequest offline () "graphql" city_body "before"
    = {| error := Some "graphql request error: dial tcp: connection refused";
         response_after := "before";
         trace := [EvDo (new_request offline () "graphql" city_body)] |}.
Proof.
  split; [reflexivity|]. split.
  - exact (proj1 (X3_failures_before_the_body misaddressed () "graphql" city_body "before")
             _ eq_refl).
  - split; [reflexivity|].
    exact (proj1 (proj2 (X3_failures_before_the_body offline () "graphql" city_body
                           "before"))
             _ eq_refl eq_refl).
Defined.

Lemma X4_decoding_error_first_witness :
  Unmarshal mismatch_body {| Data := "before"; Errors := [] |}
    = (Some "json: cannot unmarshal number into Go value of type string",
       {| Data := "before"; Errors := [{| Message := "boom" |}] |})
  ∧ error (RawRequest mismatched () "graphql" city_body "before")
    = Some ("graphql decoding error: json: cannot unmarshal number into Go value of type string response: "
            +:+ mismatch_body)
  ∧ log_calls (trace (RawRequest mismatched () "graphql" city_body "before"))
    = [("sink", log_line city_body mismatch_body)].
Proof.
  split; [vm_compute; reflexivity|].
  pose proof (X4_decoding_error_first mismatched () "graphql" city_body "before"
                (String.length city_body)
                {| StatusCode := 200; Status := "200 OK";
                   RespBody := ReadOk mismatch_body |}
                mismatch_body
                "json: cannot unmarshal number into Go value of type string"
                {| Data := "before"; Errors := [{| Message := "boom" |}] |}
                eq_refl eq_refl eq_refl eq_refl eq_refl) as (Herr & _ & _ & Hlog).
  split; [exact Herr|exact Hlog].
Defined.

Lemma X7_last_option_wins_witness :
  client (New base reconfigured) = server 200 "200 OK" data_body
  ∧ logFunc (New base reconfigured) = Some "second".
Proof.
  pose proof (X7_last_option_wins base reconfigured) as (_ & _ & Hclient & Hlog).
  split.
  - apply (Hclient [WithClient (server 500 "500 Internal Server Error" errors_body);
                    WithLogging (RT := runtime) (Some "first")]
             _ [WithLogging (RT := runtime) (Some "second"); WithHeader "X" "Y"]); [reflexivity|].
    repeat constructor.
  - apply (Hlog [WithClient (server 500 "500 Internal Server Error" errors_body);
                 WithLogging (RT := runtime) (Some "first");
                 WithClient (server 200 "200 OK" data_body)]
             _ [WithHeader "X" "Y"]); [reflexivity|].
    repeat constructor.
Defined.

Lemma X8_header_map_of_New_witness :
  headers (New base reheadered) !! "X" = Some "2"
  ∧ headers (New base reheadered) !! "Z" = None.
Proof.
  split.
  - apply (proj2 (X8_header_map_of_New base reheadered "X")
             [WithHeader "X" "1"] "2" [WithHeader "Y" "3"]); [reflexivity|done|].
    repeat constructor. intros gql. by apply WithHeader_other.
  - apply (proj1 (X8_header_map_of_New base reheadered "Z")).
    repeat constructor; intros gql; by apply WithHeader_other.
Defined.

Lemma X10_url_normal_form_witness :
  url (New (base +:+ "///") [WithHeader "X" "Y"]) = "http://localhost:8080/"
  ∧ url (New (url (New (base +:+ "///") [WithHeader "X" "Y"])) [WithLogging (Some "sink")])
    = url (New (base +:+ "///") [WithHeader "X" "Y"]).
Proof.
  split; [reflexivity|].
  apply (X10_url_normal_form (base +:+ "///") [WithHeader "X" "Y"]
           [WithLogging (RT := runtime) (Some "sink")]).
  - repeat constructor.
  - repeat constructor.
Defined.

Lemma X12_binding_order_irrelevant_witness :
  NoDup [("b", VInt 2); ("a", VString "one")].*1
  ∧ Execute logging () city_query ""
      [WithVariable "b" (VInt 2); WithVariable "a" (VString "one")]
    = Execute logging () city_query ""
        [WithVariable "a" (VString "one"); WithVariable "b" (VInt 2)].
Proof.
  assert (NoDup [("b", VInt 2); ("a", VString "one")].*1) as Hnd.
  { apply NoDup_cons. split; [|apply NoDup_singleton].
    by intros [=]%list_elem_of_singleton. }
  split; [exact Hnd|].
  exact (proj2 (X12_binding_order_irrelevant logging () "graphql" city_query ""
                  [("b", VInt 2); ("a", VString "one")]
                  [("a", VString "one"); ("b", VInt 2)]
                  Hnd (perm_swap _ _ _))).
Defined.

Lemma X13_encoding_decides_witness :
  apply_variables [WithVariable "a" (VInt 1); WithVariable "c" VChan]
    = Some (<["c" := VChan]> (<["a" := VInt 1]> ∅))
  ∧ ∃ k' v' e',
      (<["c" := VChan]> (<["a" := VInt 1]> ∅) : gmap string value) !! k' = Some v'
      ∧ encode_value v' = Err e'
      ∧ ExecuteOnEndpoint logging () "graphql" city_query "before"
          [WithVariable "a" (VInt 1); WithVariable "c" VChan]
        = {| error := Some ("graphql encoding error: " +:+ e');
             response_after := "before"; trace := [] |}.
Proof.
  split; [reflexivity|].
  exact (proj2 (proj2 (X13_encoding_decides logging () "graphql" city_query "before"
                         [WithVariable "a" (VInt 1); WithVariable "c" VChan])
                  _ eq_refl)
           "c" VChan "json: unsupported type: chan int" eq_refl eq_refl).
Defined.

Lemma X14_request_headers_witness :
  new_request with_content_type () "graphql" city_body
    ∈ requests (trace (RawRequest with_content_type () "graphql" city_body ""))
  ∧ is_Some (Header (new_request with_content_type () "graphql" city_body) !! "Accept")
  ∧ ∀ name vs,
      Header (new_request with_content_type () "graphql" city_body) !! name = Some vs →
      CanonicalMIMEHeaderKey name = name.
Proof.
  assert (new_request with_content_type () "graphql" city_body
            ∈ requests (trace (RawRequest with_content_type () "graphql" city_body "")))
    as Hreq.
  { apply list_elem_of_singleton. reflexivity. }
  split; [exact Hreq|].
  pose proof (X14_request_headers with_content_type () "graphql" city_body "" _ Hreq)
    as [(_ & _ & Haccept) Hall].
  split; [exact Haccept|].
  intros name vs Hname. exact (proj1 (Hall name vs Hname)).
Defined.

Lemma X15_empty_map_is_not_null_witness :
  [λ m : gmap string value, delete "a" m] ≠ []
  ∧ foldl (λ m mutate, mutate m) ∅ [λ m : gmap string value, delete "a" m] = ∅
  ∧ ExecuteOnEndpoint logging () "graphql" city_query "" [λ m, delete "a" m]
    = RawRequest logging () "graphql"
        (js "{'query':'query { getCity(id: \'0x01\') { id name lat lng } }','variables':{}}"
         +:+ String Bytes.newline "") "".
Proof.
  assert ([λ m : gmap string value, delete "a" m] ≠ []) as Hne by done.
  split; [exact Hne|]. split; [reflexivity|].
  exact (proj1 (X15_empty_map_is_not_null logging () "graphql" city_query ""
                  [λ m, delete "a" m] Hne eq_refl)).
Defined.

(** A decoding error hides the error the server reported. *)
Example mismatch_returns_decoding_error :
  Execute mismatched () city_query "before" []
  = {| error := Some (decoding_error
                        "json: cannot unmarshal number into Go value of type string"
                        mismatch_body);
       response_after := "before";
       trace := [EvDo (new_request mismatched () "graphql" city_body);
                 EvLog "sink" (log_line city_body mismatch_body);
                 EvUnmarshal mismatch_body] |}.
Proof. vm_compute. reflexivity. Qed.

End FurtherRuns.
